(** * Directional Young's modulus of cubic crystals

    Shallow embedding of
    [anisotropic-young-modulus_cubic-materials_from_compliance_colored.py].

    The script evaluates
      1/E(n) = S11 - 2 (S11 - S12 - S44/2) (n1^2 n2^2 + n2^2 n3^2 + n3^2 n1^2)
    on a latitude/longitude grid and colours the radial surface by E.

    Two readings of the arithmetic are kept side by side:
    - the exact one, over [R], in which the grid, the direction cosines and
      the modulus field are lists of lists of reals (module-free part and
      [Np], [Mpl]);
    - the binary64 one, over Rocq's primitive floats, for the elementwise
      arithmetic of a single grid cell (module [B64]). *)

From Stdlib Require Import String Reals Lra Lia Psatz Bool ZArith List.
From Stdlib Require Import Floats.
Import ListNotations.

Open Scope R_scope.

(** ** The fragment of numpy the script uses, over exact reals *)

Module Np.

(** A 2D array is a list of rows. *)
Definition arr : Type := list (list R).

(** [A[i, j]]; the default is only met out of range. *)
Definition cell (A : arr) (i j : nat) : R := nth j (nth i A []) 0.

(** [A.shape == (r, c)]. *)
Definition shape (A : arr) (r c : nat) : Prop :=
  length A = r /\ Forall (fun row => length row = c) A.

Fixpoint zip_with {X Y Z : Type} (f : X -> Y -> Z)
    (xs : list X) (ys : list Y) : list Z :=
  match xs, ys with
  | x :: xs', y :: ys' => f x y :: zip_with f xs' ys'
  | _, _ => []
  end.

(** A unary ufunc, and a binary ufunc on arrays of one shape. *)
Definition ufunc (f : R -> R) (A : arr) : arr := map (map f) A.
Definition ufunc2 (f : R -> R -> R) (A B : arr) : arr :=
  zip_with (zip_with f) A B.

Definition sin (A : arr) : arr := ufunc Rtrigo_def.sin A.
Definition cos (A : arr) : arr := ufunc Rtrigo_def.cos A.
Definition mul (A B : arr) : arr := ufunc2 Rmult A B.
Definition add (A B : arr) : arr := ufunc2 Rplus A B.
(** [A ** 2] *)
Definition square (A : arr) : arr := ufunc (fun x => x ^ 2) A.
(** [k * A], [k - A] and [k / A] for a scalar [k] (broadcast). *)
Definition smul (k : R) (A : arr) : arr := ufunc (fun x => k * x) A.
Definition ssub (k : R) (A : arr) : arr := ufunc (fun x => k - x) A.
Definition sdiv (k : R) (A : arr) : arr := ufunc (fun x => k / x) A.
(** [np.maximum(A, k)] *)
Definition maximum (A : arr) (k : R) : arr := ufunc (fun x => Rmax x k) A.

(** [np.linspace(start, stop, num)] with the default [endpoint=True]:
    [num] samples [i * step + start] with [step = (stop - start) / (num - 1)],
    the last of which is overwritten with [stop] itself when [num > 1].
    With [num = 1] the only sample is [start]. *)
Definition linspace (start stop : R) (num : nat) : list R :=
  let div := (num - 1)%nat in
  let step := (stop - start) / INR div in
  map (fun i => if ((1 <? num) && (i =? div))%nat then stop
                else INR i * step + start)
      (seq 0 num).

(** [np.meshgrid(x, y)] with the default [indexing='xy']: both results have
    shape [(len(y), len(x))], [X[i, j] = x[j]] and [Y[i, j] = y[i]]. *)
Definition meshgrid (x y : list R) : arr * arr :=
  (map (fun _ => x) y, map (fun yi => map (fun _ => yi) x) y).

(** [A.min()] and [A.max()] over all entries; numpy raises on a zero-size
    array, which is [None] here. *)
Definition reduce (f : R -> R -> R) (A : arr) : option R :=
  match concat A with
  | [] => None
  | x :: xs => Some (fold_left f xs x)
  end.
Definition amin (A : arr) : option R := reduce Rmin A.
Definition amax (A : arr) : option R := reduce Rmax A.

End Np.

(** ** FieldEvaluator *)

(** The two angular grids of [directional_E_cubic_from_S], in the exact
    reading: [np.pi] is [PI], so the last samples are exactly pi and 2 pi
    and their sines are exactly 0.  In binary64 [np.sin(np.pi)] is
    1.22e-16; see [sin_pi_b64] for that reading of the theta = pi cells. *)
Definition theta_grid (samples : nat) : list R := Np.linspace 0 PI samples.
Definition phi_grid (samples : nat) : list R := Np.linspace 0 (2 * PI) samples.

(** The floor applied to [Einv]. *)
Definition Einv_floor : R := 1e-16.

(** [directional_E_cubic_from_S(S11, S12, S44, samples)], statement by
    statement; it returns [(E, ax, ay, az)].  [samples] is a [nat]: numpy
    refuses a negative count (see [main]). *)
Definition directional_E_cubic_from_S (S11 S12 S44 : R) (samples : nat)
    : Np.arr * Np.arr * Np.arr * Np.arr :=
  let theta := theta_grid samples in
  let phi := phi_grid samples in
  let '(T, P) := Np.meshgrid theta phi in
  let ax := Np.mul (Np.sin T) (Np.cos P) in
  let ay := Np.mul (Np.sin T) (Np.sin P) in
  let az := Np.cos T in
  let n1_2 := Np.square ax in
  let n2_2 := Np.square ay in
  let n3_2 := Np.square az in
  let I2 := Np.add (Np.add (Np.mul n1_2 n2_2) (Np.mul n2_2 n3_2))
                   (Np.mul n3_2 n1_2) in
  let Einv := Np.ssub S11 (Np.smul (2.0 * (S11 - S12 - 0.5 * S44)) I2) in
  let Einv := Np.maximum Einv Einv_floor in
  let E := Np.sdiv 1.0 Einv in
  (E, ax, ay, az).

(** Projections of the returned tuple. *)
Definition field_E (r : Np.arr * Np.arr * Np.arr * Np.arr) : Np.arr :=
  let '(E, _, _, _) := r in E.
Definition field_ax (r : Np.arr * Np.arr * Np.arr * Np.arr) : Np.arr :=
  let '(_, ax, _, _) := r in ax.
Definition field_ay (r : Np.arr * Np.arr * Np.arr * Np.arr) : Np.arr :=
  let '(_, _, ay, _) := r in ay.
Definition field_az (r : Np.arr * Np.arr * Np.arr * Np.arr) : Np.arr :=
  let '(_, _, _, az) := r in az.

(** *** The same computation seen at one grid cell *)

(** Direction cosines at polar angle [t] and azimuth [p] (lines 32-34). *)
Definition n1_at (t p : R) : R := Rtrigo_def.sin t * Rtrigo_def.cos p.
Definition n2_at (t p : R) : R := Rtrigo_def.sin t * Rtrigo_def.sin p.
Definition n3_at (t p : R) : R := Rtrigo_def.cos t.

(** The cubic invariant of a direction (lines 37-40). *)
Definition I2_of (n1 n2 n3 : R) : R :=
  n1 ^ 2 * n2 ^ 2 + n2 ^ 2 * n3 ^ 2 + n3 ^ 2 * n1 ^ 2.

(** The anisotropy factor [S11 - S12 - 0.5*S44]. *)
Definition aniso (S11 S12 S44 : R) : R := S11 - S12 - 0.5 * S44.

(** Lines 43-47 as a function of the invariant. *)
Definition E_of_I2 (S11 S12 S44 I2 : R) : R :=
  1.0 / Rmax (S11 - 2.0 * (S11 - S12 - 0.5 * S44) * I2) Einv_floor.

(** The modulus in direction [(n1, n2, n3)]. *)
Definition E_of_n (S11 S12 S44 n1 n2 n3 : R) : R :=
  E_of_I2 S11 S12 S44 (I2_of n1 n2 n3).

(** The modulus at angles [(t, p)]. *)
Definition E_at (S11 S12 S44 t p : R) : R :=
  E_of_n S11 S12 S44 (n1_at t p) (n2_at t p) (n3_at t p).

(** A 2D array given by its entries over the two grids, in numpy's layout:
    rows follow [ys] (here phi), columns follow [xs] (here theta). *)
Definition tabulate2 (f : R -> R -> R) (xs ys : list R) : Np.arr :=
  map (fun y => map (fun x => f x y) xs) ys.

(** ** SurfaceRenderer: the colour step (lines 70-72) *)

Module Mpl.

(** An RGBA colour. *)
Definition rgba : Type := (R * R * R * R)%type.

(** [matplotlib.colors.Normalize(vmin, vmax)(A)] with the default
    [clip=False].  The class is matplotlib's, not the script's; its call is:
    a zero-width range maps all data to 0 (the library documents "if
    vmin == vmax, input data will be mapped to 0"), a reversed range raises
    [ValueError], and otherwise the data are mapped linearly,
    [(x - vmin) / (vmax - vmin)]. *)
Definition Normalize (vmin vmax : R) (A : Np.arr) : option Np.arr :=
  if Req_dec_T vmin vmax then Some (Np.ufunc (fun _ => 0) A)
  else if Rlt_dec vmax vmin then None
  else Some (Np.ufunc (fun x => (x - vmin) / (vmax - vmin)) A).

(** Lines 70-72 of [plot_young_surface_colored]: the per-cell colours.
    [colormaps] is the registry [plt.colormaps]; an unknown name raises, and
    so do [E.min()] and [E.max()] on an empty field. *)
Definition face_colors (colormaps : string -> option (R -> rgba))
    (cmap_name : string) (E : Np.arr) : option (list (list rgba)) :=
  match Np.amin E, Np.amax E with
  | Some vmin, Some vmax =>
      match colormaps cmap_name with
      | Some cmap =>
          match Normalize vmin vmax E with
          | Some X => Some (map (map cmap) X)
          | None => None
          end
      | None => None
      end
  | _, _ => None
  end.

End Mpl.

(** ** Command line driver *)

(** The parsed arguments. *)
Record Args : Type := mkArgs {
  args_material : string;
  args_S11 : R;
  args_S12 : R;
  args_S44 : R;
  args_samples : Z;
  args_cmap : string
}.

(** What [main] hands to [plot_young_surface_colored]. *)
Record render_call : Type := mkRenderCall {
  rc_E : Np.arr;
  rc_ax : Np.arr;
  rc_ay : Np.arr;
  rc_az : Np.arr;
  rc_cmap_name : string;
  rc_title : string;
  rc_outfile : string
}.

(** [x > 0] as Python evaluates it. *)
Definition gt0 (x : R) : bool := if Rlt_dec 0 x then true else false.

(** The condition under the [not] of the stability check. *)
Definition stability_ok (S11 S12 S44 : R) : bool :=
  gt0 S11 && gt0 S44 && gt0 (S11 - S12) && gt0 (S11 + 2 * S12).

Definition warning_lines : list string :=
  [ "Warning: Compliance values may violate cubic stability conditions."%string;
    "Check that S11 > 0, S44 > 0, S11 - S12 > 0, and S11 + 2*S12 > 0"%string ].

(** [main] after argument parsing: the lines printed, and the call made to
    the renderer ([None] when [np.linspace] raises on a negative [samples],
    which happens after the warning has been printed). *)
Definition main (a : Args) : list string * option render_call :=
  let graph_title :=
    (args_material a ++ " - Young's Modulus (GPa)")%string in
  let printed :=
    if negb (stability_ok (args_S11 a) (args_S12 a) (args_S44 a))
    then warning_lines else [] in
  if (args_samples a <? 0)%Z then (printed, None)
  else
    let '(E, ax, ay, az) :=
      directional_E_cubic_from_S (args_S11 a) (args_S12 a) (args_S44 a)
                                 (Z.to_nat (args_samples a)) in
    (printed,
     Some (mkRenderCall E ax ay az (args_cmap a) graph_title graph_title)).

(** Whether a run printed the warning. *)
Definition warned (a : Args) : bool :=
  match fst (main a) with [] => false | _ :: _ => true end.

(** ** The cell arithmetic in binary64 *)

Module B64.

Open Scope float_scope.

(** [np.maximum] on two binary64 values: a NaN operand gives NaN. *)
Definition maximum (x y : float) : float :=
  if is_nan x || is_nan y then nan
  else if x <? y then y else x.

(** The binary64 nearest to the literal [1e-16]. *)
Definition Einv_floor : float := 0x1.cd2b297d889bcp-54.

(** Lines 37-47 at one grid cell, every operation rounded to binary64 in the
    order Python evaluates it. *)
Definition E_cell (S11 S12 S44 ax ay az : float) : float :=
  let n1_2 := ax * ax in
  let n2_2 := ay * ay in
  let n3_2 := az * az in
  let I2 := n1_2 * n2_2 + n2_2 * n3_2 + n3_2 * n1_2 in
  let Einv := S11 - 2.0 * (S11 - S12 - 0.5 * S44) * I2 in
  let Einv := maximum Einv Einv_floor in
  1.0 / Einv.

(** The direction cosines of grid cell [[0, 0]], where [theta = phi = +0]:
    there [sin] and [cos] are exact, [sin(+0) = +0] and [cos(+0) = 1]. *)
Definition sin_0 : float := 0.
Definition cos_0 : float := 1.
Definition ax_00 : float := sin_0 * cos_0.
Definition ay_00 : float := sin_0 * sin_0.
Definition az_00 : float := cos_0.

(** A value that is a positive finite number. *)
Definition positive_finite (x : float) : bool := is_finite x && (0 <? x).

End B64.

(** ** Vocabulary for the directions *)

(** A unit vector. *)
Definition is_unit (n1 n2 n3 : R) : Prop := n1 ^ 2 + n2 ^ 2 + n3 ^ 2 = 1.

(** A <111>-type direction: the three components agree in magnitude. *)
Definition dir_111 (n1 n2 n3 : R) : Prop :=
  Rabs n1 = Rabs n2 /\ Rabs n2 = Rabs n3.

(** A <100>-type direction: along a cube axis, two components vanish. *)
Definition dir_100 (n1 n2 n3 : R) : Prop :=
  (n1 = 0 /\ n2 = 0) \/ (n2 = 0 /\ n3 = 0) \/ (n3 = 0 /\ n1 = 0).

(** The modulus field of a run, and a colormap registry holding one linear
    grey ramp under every name, to exercise the colour step. *)
Definition modulus_field (S11 S12 S44 : R) (samples : nat) : Np.arr :=
  field_E (directional_E_cubic_from_S S11 S12 S44 samples).

Definition grey_ramp (x : R) : Mpl.rgba := (x, x, x, 1).
Definition grey_registry (name : string) : option (R -> Mpl.rgba) :=
  Some grey_ramp.

(** ** SurfaceRenderer: what is handed to the 3D backend *)

(** The normalised data [norm(E)] of lines 70 and 72, before the colormap
    lookup. *)
Definition normalized_field (E : Np.arr) : option Np.arr :=
  match Np.amin E, Np.amax E with
  | Some vmin, Some vmax => Mpl.Normalize vmin vmax E
  | _, _ => None
  end.

(** The arguments [plot_young_surface_colored] passes on: the vertex arrays
    [E * ax], [E * ay], [E * az] and the face colours of [plot_surface]
    (lines 79-82), the title (line 91) and the target of [savefig]
    (line 109). *)
Record surface_plot : Type := mkSurfacePlot {
  sp_X : Np.arr;
  sp_Y : Np.arr;
  sp_Z : Np.arr;
  sp_facecolors : list (list Mpl.rgba);
  sp_title : string;
  sp_outfile : string
}.

(** [plot_young_surface_colored(E, ax, ay, az, title, cmap_name, outfile)]
    up to the calls into the backend: [None] when lines 70-72 raise, which
    happens before any figure is created; drawing and saving themselves are
    the backend's and are not modelled.  The four arrays are taken to have
    one common shape, as [main] passes them: the products of line 79 are
    elementwise, and numpy's broadcasting or its error on shapes that do
    not match is not modelled. *)
Definition plot_young_surface_colored
    (colormaps : string -> option (R -> Mpl.rgba))
    (E ax ay az : Np.arr) (title cmap_name outfile : string)
    : option surface_plot :=
  match Mpl.face_colors colormaps cmap_name E with
  | Some colors =>
      Some (mkSurfacePlot (Np.mul E ax) (Np.mul E ay) (Np.mul E az)
                          colors title outfile)
  | None => None
  end.

(** A whole run: [main], then the renderer on the call it makes. *)
Definition run (colormaps : string -> option (R -> Mpl.rgba)) (a : Args)
    : list string * option surface_plot :=
  match main a with
  | (printed, Some c) =>
      (printed,
       plot_young_surface_colored colormaps (rc_E c) (rc_ax c) (rc_ay c)
         (rc_az c) (rc_title c) (rc_cmap_name c) (rc_outfile c))
  | (printed, None) => (printed, None)
  end.

(** The unclamped [Einv] of one grid cell in binary64 (lines 37-43), the
    argument of the floor in [B64.E_cell]. *)
Definition Einv_cell_b64 (S11 S12 S44 ax ay az : float) : float :=
  (let n1_2 := ax * ax in
   let n2_2 := ay * ay in
   let n3_2 := az * az in
   let I2 := n1_2 * n2_2 + n2_2 * n3_2 + n3_2 * n1_2 in
   S11 - 2.0 * (S11 - S12 - 0.5 * S44) * I2)%float.

(** The direction cosines of grid cell [[0, samples - 1]] in binary64, where
    [theta] is the binary64 number [np.pi] and [phi = +0]: [np.sin(np.pi)]
    is 1.2246467991473532e-16, not 0, and [np.cos(np.pi)] is -1. *)
Definition sin_pi_b64 : float := 0x1.1a62633145c07p-53%float.
Definition cos_pi_b64 : float := (-1)%float.
Definition ax_pi_b64 : float := (sin_pi_b64 * B64.cos_0)%float.
Definition ay_pi_b64 : float := (sin_pi_b64 * B64.sin_0)%float.
Definition az_pi_b64 : float := cos_pi_b64.

(** A registry that knows no colormap at all. *)
Definition empty_registry (name : string) : option (R -> Mpl.rgba) := None.

(** * Properties *)

(** ** Arrays given by their entries *)

Lemma zip_with_map {X Y Z W : Type} (f : Y -> Z -> W) (g : X -> Y)
    (h : X -> Z) (l : list X) :
  Np.zip_with f (map g l) (map h l) = map (fun x => f (g x) (h x)) l.
Proof.
  induction l as [|x l IH]; simpl; [reflexivity|].
  now rewrite IH.
Qed.

Lemma ufunc_tabulate2 (g : R -> R) (f : R -> R -> R) (xs ys : list R) :
  Np.ufunc g (tabulate2 f xs ys) = tabulate2 (fun x y => g (f x y)) xs ys.
Proof.
  unfold Np.ufunc, tabulate2.
  rewrite map_map.
  apply map_ext; intros y.
  now rewrite map_map.
Qed.

Lemma ufunc2_tabulate2 (h : R -> R -> R) (f g : R -> R -> R)
    (xs ys : list R) :
  Np.ufunc2 h (tabulate2 f xs ys) (tabulate2 g xs ys)
  = tabulate2 (fun x y => h (f x y) (g x y)) xs ys.
Proof.
  unfold Np.ufunc2, tabulate2.
  rewrite zip_with_map.
  apply map_ext; intros y.
  apply zip_with_map.
Qed.

Lemma meshgrid_tabulate2 (xs ys : list R) :
  Np.meshgrid xs ys
  = (tabulate2 (fun x _ => x) xs ys, tabulate2 (fun _ y => y) xs ys).
Proof.
  unfold Np.meshgrid, tabulate2.
  now rewrite map_id.
Qed.

Lemma tabulate2_shape (f : R -> R -> R) (xs ys : list R) :
  Np.shape (tabulate2 f xs ys) (length ys) (length xs).
Proof.
  unfold Np.shape, tabulate2; split.
  - apply length_map.
  - apply Forall_forall; intros row Hrow.
    apply in_map_iff in Hrow as [y [<- _]].
    apply length_map.
Qed.

Lemma cell_tabulate2 (f : R -> R -> R) (xs ys : list R) (i j : nat) :
  (i < length ys)%nat -> (j < length xs)%nat ->
  Np.cell (tabulate2 f xs ys) i j = f (nth j xs 0) (nth i ys 0).
Proof.
  intros Hi Hj. unfold Np.cell, tabulate2.
  rewrite (nth_indep _ [] (map (fun x => f x 0) xs))
    by (now rewrite length_map).
  rewrite (map_nth (fun y => map (fun x => f x y) xs) ys 0 i).
  rewrite (nth_indep _ 0 (f 0 (nth i ys 0))) by (now rewrite length_map).
  apply (map_nth (fun x => f x (nth i ys 0))).
Qed.

Lemma Forall_tabulate2 (Q : R -> Prop) (f : R -> R -> R) (xs ys : list R) :
  (forall x y, In x xs -> In y ys -> Q (f x y)) ->
  Forall (Forall Q) (tabulate2 f xs ys).
Proof.
  intros H. unfold tabulate2.
  apply Forall_forall; intros row Hrow.
  apply in_map_iff in Hrow as [y [<- Hy]].
  apply Forall_forall; intros e He.
  apply in_map_iff in He as [x [<- Hx]].
  now apply H.
Qed.

(** The evaluator, entry by entry: row [i] belongs to [phi[i]], column [j]
    to [theta[j]]. *)
Lemma directional_E_tabulated (S11 S12 S44 : R) (samples : nat) :
  directional_E_cubic_from_S S11 S12 S44 samples
  = (tabulate2 (E_at S11 S12 S44) (theta_grid samples) (phi_grid samples),
     tabulate2 n1_at (theta_grid samples) (phi_grid samples),
     tabulate2 n2_at (theta_grid samples) (phi_grid samples),
     tabulate2 n3_at (theta_grid samples) (phi_grid samples)).
Proof.
  unfold directional_E_cubic_from_S.
  rewrite meshgrid_tabulate2.
  unfold Np.sin, Np.cos, Np.mul, Np.add, Np.square, Np.smul, Np.ssub,
    Np.sdiv, Np.maximum.
  repeat (rewrite ?ufunc_tabulate2, ?ufunc2_tabulate2).
  reflexivity.
Qed.

(** ** The angular grids *)

Lemma length_linspace (a b : R) (n : nat) : length (Np.linspace a b n) = n.
Proof. unfold Np.linspace. now rewrite length_map, length_seq. Qed.

Lemma nth_linspace (a b : R) (n i : nat) :
  (i < n)%nat ->
  nth i (Np.linspace a b n) 0 = INR i * ((b - a) / INR (n - 1)) + a.
Proof.
  intros Hi. unfold Np.linspace.
  set (f := fun k : nat => if ((1 <? n) && (k =? n - 1))%nat then b
                           else INR k * ((b - a) / INR (n - 1)) + a).
  rewrite (nth_indep _ 0 (f 0%nat)) by (now rewrite length_map, length_seq).
  rewrite (map_nth f), seq_nth by exact Hi.
  unfold f; simpl.
  destruct ((1 <? n) && (i =? n - 1))%nat eqn:E; [|reflexivity].
  apply andb_true_iff in E as [E1 E2].
  apply Nat.ltb_lt in E1. apply Nat.eqb_eq in E2. subst i.
  assert (INR (n - 1) <> 0) by (apply not_0_INR; lia).
  now field.
Qed.

Lemma linspace_first (a b : R) (n : nat) :
  (1 <= n)%nat -> nth 0 (Np.linspace a b n) 0 = a.
Proof.
  intros Hn. rewrite nth_linspace by lia. simpl. ring.
Qed.

Lemma linspace_last (a b : R) (n : nat) :
  (2 <= n)%nat -> nth (n - 1) (Np.linspace a b n) 0 = b.
Proof.
  intros Hn. rewrite nth_linspace by lia.
  assert (INR (n - 1) <> 0) by (apply not_0_INR; lia).
  now field.
Qed.

Lemma linspace_bounds (a b : R) (n : nat) (x : R) :
  a <= b -> In x (Np.linspace a b n) -> a <= x <= b.
Proof.
  intros Hab Hx.
  apply (In_nth _ _ 0) in Hx as [i [Hi <-]].
  rewrite length_linspace in Hi.
  rewrite nth_linspace by exact Hi.
  destruct (Nat.eq_dec n 1) as [->|Hn].
  - replace i with 0%nat by lia. simpl. lra.
  - assert (Hd : 0 < INR (n - 1)) by (apply lt_0_INR; lia).
    assert (Hi' : 0 <= INR i <= INR (n - 1))
      by (split; [apply pos_INR | apply le_INR; lia]).
    assert (Hq : 0 <= INR i / INR (n - 1) <= 1).
    { split.
      - apply Rmult_le_pos; [lra | left; now apply Rinv_0_lt_compat].
      - apply (Rmult_le_reg_r (INR (n - 1))); [exact Hd|].
        unfold Rdiv. rewrite Rmult_assoc, Rinv_l by lra. lra. }
    replace (INR i * ((b - a) / INR (n - 1)) + a)
      with (a + (INR i / INR (n - 1)) * (b - a)) by (field; lra).
    nra.
Qed.

Lemma length_theta_grid (n : nat) : length (theta_grid n) = n.
Proof. apply length_linspace. Qed.

Lemma length_phi_grid (n : nat) : length (phi_grid n) = n.
Proof. apply length_linspace. Qed.

(** Entries of the four returned arrays. *)
Lemma cell_field_E (S11 S12 S44 : R) (n i j : nat) :
  (i < n)%nat -> (j < n)%nat ->
  Np.cell (field_E (directional_E_cubic_from_S S11 S12 S44 n)) i j
  = E_at S11 S12 S44 (nth j (theta_grid n) 0) (nth i (phi_grid n) 0).
Proof.
  intros Hi Hj. rewrite directional_E_tabulated. simpl.
  apply cell_tabulate2; now rewrite ?length_theta_grid, ?length_phi_grid.
Qed.

Lemma cell_field_ax (S11 S12 S44 : R) (n i j : nat) :
  (i < n)%nat -> (j < n)%nat ->
  Np.cell (field_ax (directional_E_cubic_from_S S11 S12 S44 n)) i j
  = n1_at (nth j (theta_grid n) 0) (nth i (phi_grid n) 0).
Proof.
  intros Hi Hj. rewrite directional_E_tabulated. simpl.
  apply cell_tabulate2; now rewrite ?length_theta_grid, ?length_phi_grid.
Qed.

Lemma cell_field_ay (S11 S12 S44 : R) (n i j : nat) :
  (i < n)%nat -> (j < n)%nat ->
  Np.cell (field_ay (directional_E_cubic_from_S S11 S12 S44 n)) i j
  = n2_at (nth j (theta_grid n) 0) (nth i (phi_grid n) 0).
Proof.
  intros Hi Hj. rewrite directional_E_tabulated. simpl.
  apply cell_tabulate2; now rewrite ?length_theta_grid, ?length_phi_grid.
Qed.

Lemma cell_field_az (S11 S12 S44 : R) (n i j : nat) :
  (i < n)%nat -> (j < n)%nat ->
  Np.cell (field_az (directional_E_cubic_from_S S11 S12 S44 n)) i j
  = n3_at (nth j (theta_grid n) 0) (nth i (phi_grid n) 0).
Proof.
  intros Hi Hj. rewrite directional_E_tabulated. simpl.
  apply cell_tabulate2; now rewrite ?length_theta_grid, ?length_phi_grid.
Qed.

Lemma Forall2d_cell (Q : R -> Prop) (A : Np.arr) (i j : nat) :
  Forall (Forall Q) A ->
  (i < length A)%nat -> (j < length (nth i A []))%nat ->
  Q (Np.cell A i j).
Proof.
  intros HA Hi Hj. unfold Np.cell.
  rewrite Forall_forall in HA.
  specialize (HA (nth i A []) (nth_In _ _ Hi)).
  rewrite Forall_forall in HA.
  apply HA, nth_In, Hj.
Qed.

Lemma modulus_field_tabulated (S11 S12 S44 : R) (n : nat) :
  modulus_field S11 S12 S44 n
  = tabulate2 (E_at S11 S12 S44) (theta_grid n) (phi_grid n).
Proof. unfold modulus_field. now rewrite directional_E_tabulated. Qed.

Lemma modulus_field_shape (S11 S12 S44 : R) (n : nat) :
  Np.shape (modulus_field S11 S12 S44 n) n n.
Proof.
  rewrite modulus_field_tabulated.
  pose proof (tabulate2_shape (E_at S11 S12 S44) (theta_grid n) (phi_grid n))
    as H.
  now rewrite length_phi_grid, length_theta_grid in H.
Qed.

(** ** The model on small inputs *)

Example linspace_unit_3 : Np.linspace 0 1 3 = [0; 1 / 2; 1].
Proof.
  unfold Np.linspace. simpl.
  replace (0 * ((1 - 0) / (1 + 1)) + 0) with 0 by lra.
  replace (1 * ((1 - 0) / (1 + 1)) + 0) with (1 / 2) by lra.
  reflexivity.
Qed.

Example phi_grid_2 : phi_grid 2 = [0; 2 * PI].
Proof.
  unfold phi_grid, Np.linspace. simpl.
  replace (0 * ((2 * PI - 0) / 1) + 0) with 0 by lra.
  reflexivity.
Qed.

Example meshgrid_3_2 :
  Np.meshgrid [1; 2; 3] [10; 20]
  = ([[1; 2; 3]; [1; 2; 3]], [[10; 10; 10]; [20; 20; 20]]).
Proof. reflexivity. Qed.

(** Copper (S11 = 0.014928, S12 = -0.006259, S44 = 0.013280 per GPa) in
    binary64: about 67 GPa along <100> and 191 GPa along <111>. *)
#[warnings="-inexact-float"]
Example copper_100_binary64 :
  B64.E_cell 0.014928 (-0.006259) 0.013280 0 0 1
  = 66.988210075026799%float.
Proof. vm_compute. reflexivity. Qed.

#[warnings="-inexact-float"]
Example copper_111_binary64 :
  B64.E_cell 0.014928 (-0.006259) 0.013280
             0.5773502691896258 0.5773502691896258 0.5773502691896258
  = 191.20458891013408%float.
Proof. vm_compute. reflexivity. Qed.

(** ** The floor and the reciprocal *)

Lemma Einv_floor_pos : 0 < Einv_floor.
Proof. unfold Einv_floor. lra. Qed.

Lemma clamp_ge_floor (x : R) : Einv_floor <= Rmax x Einv_floor.
Proof. apply Rmax_r. Qed.

Lemma E_of_I2_bounds (S11 S12 S44 I2 : R) :
  0 < E_of_I2 S11 S12 S44 I2 <= 1e16.
Proof.
  unfold E_of_I2.
  set (x := S11 - _).
  pose proof (clamp_ge_floor x) as Hx.
  pose proof Einv_floor_pos as Hf.
  assert (Hinv : / Rmax x Einv_floor <= / Einv_floor)
    by (apply Rinv_le_contravar; lra).
  assert (Hpos : 0 < / Rmax x Einv_floor)
    by (apply Rinv_0_lt_compat; lra).
  replace (1e16) with (/ Einv_floor) by (unfold Einv_floor; lra).
  unfold Rdiv. lra.
Qed.

(** C1, exact arithmetic: for all real compliances and every resolution the
    returned modulus field has shape (samples, samples) and each of its
    entries lies in (0, 1e16]: strictly positive, and bounded by the
    reciprocal of the floor. *)
Theorem C1_field_positive_bounded (S11 S12 S44 : R) (samples : nat) :
  Np.shape (modulus_field S11 S12 S44 samples) samples samples /\
  Forall (Forall (fun e => 0 < e <= 1e16))
         (modulus_field S11 S12 S44 samples).
Proof.
  split; [apply modulus_field_shape|].
  rewrite modulus_field_tabulated.
  apply Forall_tabulate2; intros t p _ _.
  apply E_of_I2_bounds.
Qed.

(** C1, binary64: at the finite compliance S11 = 2^1023 (with S12 = S44 = 0)
    the product [2.0 * (S11 - S12 - 0.5*S44)] overflows to infinity, the
    invariant is 0 at grid cell [0, 0], and the entry of E there is NaN:
    neither positive nor finite. *)
Lemma C1_binary64_nan_at_pole :
  PrimFloat.is_finite 0x1p1023%float = true /\
  PrimFloat.is_nan
    (B64.E_cell 0x1p1023 0 0 B64.ax_00 B64.ay_00 B64.az_00) = true /\
  B64.positive_finite
    (B64.E_cell 0x1p1023 0 0 B64.ax_00 B64.ay_00 B64.az_00) = false.
Proof. vm_compute. repeat split. Qed.

(** ** Direction cosines *)

Lemma direction_unit (t p : R) :
  is_unit (n1_at t p) (n2_at t p) (n3_at t p).
Proof.
  unfold is_unit, n1_at, n2_at, n3_at.
  pose proof (sin2_cos2 t) as Ht. pose proof (sin2_cos2 p) as Hp.
  unfold Rsqr in Ht, Hp.
  set (st := Rtrigo_def.sin t) in *. set (ct := Rtrigo_def.cos t) in *.
  set (sp := Rtrigo_def.sin p) in *. set (cp := Rtrigo_def.cos p) in *.
  replace ((st * cp) ^ 2 + (st * sp) ^ 2 + ct ^ 2)
    with (st * st * (sp * sp + cp * cp) + ct * ct) by ring.
  rewrite Hp. lra.
Qed.

(** C2: at every grid cell the returned direction components satisfy
    n1^2 + n2^2 + n3^2 = 1 in exact real arithmetic, where
    n1 = sin(theta) cos(phi), n2 = sin(theta) sin(phi), n3 = cos(theta). *)
Theorem C2_unit_direction (S11 S12 S44 : R) (samples i j : nat) :
  (i < samples)%nat -> (j < samples)%nat ->
  let r := directional_E_cubic_from_S S11 S12 S44 samples in
  let theta := nth j (theta_grid samples) 0 in
  let phi := nth i (phi_grid samples) 0 in
  Np.cell (field_ax r) i j = Rtrigo_def.sin theta * Rtrigo_def.cos phi /\
  Np.cell (field_ay r) i j = Rtrigo_def.sin theta * Rtrigo_def.sin phi /\
  Np.cell (field_az r) i j = Rtrigo_def.cos theta /\
  Np.cell (field_ax r) i j ^ 2 + Np.cell (field_ay r) i j ^ 2
    + Np.cell (field_az r) i j ^ 2 = 1.
Proof.
  intros Hi Hj r theta phi. subst r.
  rewrite cell_field_ax, cell_field_ay, cell_field_az by assumption.
  repeat split; try reflexivity.
  apply direction_unit.
Qed.

Lemma C2_unit_direction_witness :
  Np.cell (field_ax (directional_E_cubic_from_S 1 0 1 3)) 2 1 ^ 2
  + Np.cell (field_ay (directional_E_cubic_from_S 1 0 1 3)) 2 1 ^ 2
  + Np.cell (field_az (directional_E_cubic_from_S 1 0 1 3)) 2 1 ^ 2 = 1.
Proof.
  apply (C2_unit_direction 1 0 1 3 2 1); lia.
Defined.

(** ** The stability check *)

Lemma gt0_true_iff (x : R) : gt0 x = true <-> x > 0.
Proof.
  unfold gt0. destruct (Rlt_dec 0 x); split; intros; try easy; lra.
Qed.

Lemma stability_ok_true_iff (S11 S12 S44 : R) :
  stability_ok S11 S12 S44 = true
  <-> S11 > 0 /\ S44 > 0 /\ S11 - S12 > 0 /\ S11 + 2 * S12 > 0.
Proof.
  unfold stability_ok.
  rewrite !andb_true_iff, !gt0_true_iff. tauto.
Qed.

(** ** Isotropic compliances *)

Lemma E_of_I2_isotropic (S11 S12 S44 I2 : R) :
  S11 - S12 - 0.5 * S44 = 0 ->
  E_of_I2 S11 S12 S44 I2 = 1 / Rmax S11 Einv_floor.
Proof.
  intros H. unfold E_of_I2. rewrite H.
  replace (S11 - 2.0 * 0 * I2) with S11 by lra.
  f_equal. lra.
Qed.

Lemma Rmax_floor_id (x : R) : Einv_floor <= x -> Rmax x Einv_floor = x.
Proof. intros H. now apply Rmax_left. Qed.

Lemma Rmax_floor_clamped (x : R) :
  x <= Einv_floor -> Rmax x Einv_floor = Einv_floor.
Proof. intros H. now apply Rmax_right. Qed.

(** C3 as stated fails below the floor: S11 = 1e-17, S12 = 5e-18,
    S44 = 1e-17 pass the stability check and have S11 - S12 - 0.5*S44 = 0,
    yet the field is 1e16 everywhere, not 1/S11 = 1e17. *)
Lemma C3_below_floor_counterexample :
  1e-17 - 5e-18 - 0.5 * 1e-17 = 0 /\ 1e-17 > 0 /\
  stability_ok 1e-17 5e-18 1e-17 = true /\
  ~ Forall (Forall (fun e => e = 1 / 1e-17))
           (modulus_field 1e-17 5e-18 1e-17 2).
Proof.
  split; [lra|]. split; [lra|]. split.
  - apply stability_ok_true_iff. lra.
  - intros HF.
    pose proof (modulus_field_shape 1e-17 5e-18 1e-17 2) as [Hlen Hrows].
    assert (H00 : Np.cell (modulus_field 1e-17 5e-18 1e-17 2) 0 0
                  = 1 / 1e-17).
    { apply (Forall2d_cell (fun e => e = 1 / 1e-17)); [exact HF| |].
      - rewrite Hlen; lia.
      - rewrite Forall_forall in Hrows.
        rewrite (Hrows (nth 0 (modulus_field 1e-17 5e-18 1e-17 2) [])).
        + lia.
        + apply nth_In. rewrite Hlen; lia. }
    unfold modulus_field in H00.
    rewrite cell_field_E in H00 by lia.
    unfold E_at, E_of_n in H00.
    rewrite E_of_I2_isotropic in H00 by lra.
    rewrite Rmax_floor_clamped in H00 by (unfold Einv_floor; lra).
    unfold Einv_floor in H00. lra.
Qed.

(** C3, amended: if S11 - S12 - 0.5*S44 = 0 the field is constant over the
    grid and equals 1 / max(S11, 1e-16) at every entry; it is 1/S11
    everywhere as soon as S11 >= 1e-16. *)
Theorem C3_isotropic_constant (S11 S12 S44 : R) (samples : nat) :
  S11 - S12 - 0.5 * S44 = 0 ->
  Forall (Forall (fun e => e = 1 / Rmax S11 1e-16))
         (modulus_field S11 S12 S44 samples) /\
  (1e-16 <= S11 ->
   Forall (Forall (fun e => e = 1 / S11))
          (modulus_field S11 S12 S44 samples)).
Proof.
  intros Hiso. rewrite modulus_field_tabulated. split.
  - apply Forall_tabulate2; intros t p _ _.
    unfold E_at, E_of_n. now rewrite E_of_I2_isotropic.
  - intros HS. apply Forall_tabulate2; intros t p _ _.
    unfold E_at, E_of_n. rewrite E_of_I2_isotropic by exact Hiso.
    now rewrite Rmax_floor_id.
Qed.

Lemma C3_isotropic_constant_witness :
  1 - 0.5 - 0.5 * 1 = 0 /\ 1e-16 <= 1 /\
  Forall (Forall (fun e => e = 1 / 1)) (modulus_field 1 0.5 1 2).
Proof.
  split; [lra|]. split; [lra|].
  apply (C3_isotropic_constant 1 0.5 1 2); lra.
Defined.

(** ** Symmetries of the pointwise formula *)

(** C4: the pointwise modulus is unchanged by a cyclic permutation of the
    components and by a sign flip of any single component; this holds for
    every vector, unit vectors in particular. *)
Theorem C4_cubic_symmetry (S11 S12 S44 n1 n2 n3 : R) :
  E_of_n S11 S12 S44 n1 n2 n3 = E_of_n S11 S12 S44 n2 n3 n1 /\
  E_of_n S11 S12 S44 n1 n2 n3 = E_of_n S11 S12 S44 n3 n1 n2 /\
  E_of_n S11 S12 S44 (- n1) n2 n3 = E_of_n S11 S12 S44 n1 n2 n3 /\
  E_of_n S11 S12 S44 n1 (- n2) n3 = E_of_n S11 S12 S44 n1 n2 n3 /\
  E_of_n S11 S12 S44 n1 n2 (- n3) = E_of_n S11 S12 S44 n1 n2 n3.
Proof.
  unfold E_of_n.
  repeat split; f_equal; unfold I2_of; ring.
Qed.

(** ** Extremal directions *)

Lemma I2_of_nonneg (n1 n2 n3 : R) : 0 <= I2_of n1 n2 n3.
Proof.
  unfold I2_of.
  pose proof (pow2_ge_0 (n1 * n2)). pose proof (pow2_ge_0 (n2 * n3)).
  pose proof (pow2_ge_0 (n3 * n1)). nra.
Qed.

Lemma abs_eq_iff_sq_eq (a b : R) : Rabs a = Rabs b <-> a ^ 2 = b ^ 2.
Proof.
  split; intros H.
  - rewrite <- (pow2_abs a), <- (pow2_abs b). now rewrite H.
  - apply Rsqr_eq_abs_0. unfold Rsqr. lra.
Qed.

Lemma I2_le_third (n1 n2 n3 : R) :
  is_unit n1 n2 n3 -> I2_of n1 n2 n3 <= 1 / 3.
Proof.
  unfold is_unit, I2_of. intros Hu.
  set (a := n1 ^ 2) in *. set (b := n2 ^ 2) in *. set (c := n3 ^ 2) in *.
  pose proof (pow2_ge_0 (a - b)). pose proof (pow2_ge_0 (b - c)).
  pose proof (pow2_ge_0 (c - a)). nra.
Qed.

Lemma I2_eq_third_iff (n1 n2 n3 : R) :
  is_unit n1 n2 n3 -> (I2_of n1 n2 n3 = 1 / 3 <-> dir_111 n1 n2 n3).
Proof.
  unfold is_unit, I2_of, dir_111. intros Hu.
  rewrite !abs_eq_iff_sq_eq.
  set (a := n1 ^ 2) in *. set (b := n2 ^ 2) in *. set (c := n3 ^ 2) in *.
  split.
  - intros HI.
    assert (Hz : (a - b) ^ 2 + (b - c) ^ 2 + (c - a) ^ 2 = 0) by nra.
    pose proof (pow2_ge_0 (a - b)). pose proof (pow2_ge_0 (b - c)).
    pose proof (pow2_ge_0 (c - a)).
    assert (Hab : (a - b) ^ 2 = 0) by lra.
    assert (Hbc : (b - c) ^ 2 = 0) by lra.
    split; nra.
  - intros [Hab Hbc]. nra.
Qed.

Lemma I2_eq_zero_iff (n1 n2 n3 : R) :
  is_unit n1 n2 n3 -> (I2_of n1 n2 n3 = 0 <-> dir_100 n1 n2 n3).
Proof.
  unfold is_unit, I2_of, dir_100. intros Hu. split.
  - intros HI.
    pose proof (pow2_ge_0 (n1 * n2)) as H12.
    pose proof (pow2_ge_0 (n2 * n3)) as H23.
    pose proof (pow2_ge_0 (n3 * n1)) as H31.
    assert (Z12 : n1 * n2 = 0) by nra.
    assert (Z23 : n2 * n3 = 0) by nra.
    assert (Z31 : n3 * n1 = 0) by nra.
    apply Rmult_integral in Z12. apply Rmult_integral in Z23.
    apply Rmult_integral in Z31.
    destruct Z12 as [Z1|Z2], Z23 as [Z2'|Z3], Z31 as [Z3'|Z1'];
      subst; try (left; split; reflexivity);
      try (right; left; split; reflexivity);
      try (right; right; split; reflexivity).
  - intros [[-> ->]|[[-> ->]|[-> ->]]]; ring.
Qed.

Lemma Rinv_clamp_antitone (x y : R) :
  x <= y -> 1.0 / Rmax y Einv_floor <= 1.0 / Rmax x Einv_floor.
Proof.
  intros Hxy.
  pose proof Einv_floor_pos as Hf.
  pose proof (clamp_ge_floor x) as Hx.
  assert (Hm : Rmax x Einv_floor <= Rmax y Einv_floor)
    by (apply Rle_max_compat_r; exact Hxy).
  assert (/ Rmax y Einv_floor <= / Rmax x Einv_floor)
    by (apply Rinv_le_contravar; lra).
  unfold Rdiv. lra.
Qed.

Lemma Rinv_unclamped_strict (x y : R) :
  Einv_floor <= x -> x < y ->
  1.0 / Rmax y Einv_floor < 1.0 / Rmax x Einv_floor.
Proof.
  intros Hx Hxy.
  pose proof Einv_floor_pos as Hf.
  rewrite (Rmax_floor_id x), (Rmax_floor_id y) by lra.
  assert (/ y < / x) by (apply Rinv_lt_contravar; nra).
  unfold Rdiv. lra.
Qed.

Lemma E_of_I2_increasing (S11 S12 S44 x y : R) :
  aniso S11 S12 S44 > 0 -> x <= y ->
  E_of_I2 S11 S12 S44 x <= E_of_I2 S11 S12 S44 y.
Proof.
  unfold aniso, E_of_I2. intros HA Hxy.
  apply Rinv_clamp_antitone. nra.
Qed.

Lemma E_of_I2_strictly_increasing (S11 S12 S44 x y : R) :
  aniso S11 S12 S44 > 0 -> x < y ->
  Einv_floor <= S11 - 2.0 * (S11 - S12 - 0.5 * S44) * y ->
  E_of_I2 S11 S12 S44 x < E_of_I2 S11 S12 S44 y.
Proof.
  unfold aniso, E_of_I2. intros HA Hxy Hy.
  apply Rinv_unclamped_strict; [exact Hy | nra].
Qed.

Lemma E_of_I2_decreasing (S11 S12 S44 x y : R) :
  aniso S11 S12 S44 < 0 -> x <= y ->
  E_of_I2 S11 S12 S44 y <= E_of_I2 S11 S12 S44 x.
Proof.
  unfold aniso, E_of_I2. intros HA Hxy.
  apply Rinv_clamp_antitone. nra.
Qed.

(** C5 as stated fails when the floor is reached.  With S11 = 1, S12 = -10,
    S44 = 0 the factor S11 - S12 - 0.5*S44 = 11 is positive and S11 > 0, yet
    Einv is clamped both at I2 = 144/625 and at I2 = 1/3, so E is not
    strictly increasing in I2, and the unit vector (3/5, 4/5, 0), which is
    not of <111> type, attains the maximum of E.  The same happens with
    compliances that pass the stability check: for S11 = 1e-17, S12 = 0,
    S44 = 1e-17 the factor is positive and E takes the same value at I2 = 0
    and at I2 = 1/3. *)
Lemma C5_clamped_counterexample :
  (aniso 1 (-10) 0 > 0 /\ 1 > 0 /\
   I2_of (3 / 5) (4 / 5) 0 < 1 / 3 /\
   E_of_I2 1 (-10) 0 (I2_of (3 / 5) (4 / 5) 0)
   = E_of_I2 1 (-10) 0 (1 / 3) /\
   is_unit (3 / 5) (4 / 5) 0 /\ ~ dir_111 (3 / 5) (4 / 5) 0 /\
   (forall m1 m2 m3 : R, is_unit m1 m2 m3 ->
      E_of_n 1 (-10) 0 m1 m2 m3 <= E_of_n 1 (-10) 0 (3 / 5) (4 / 5) 0)) /\
  (stability_ok 1e-17 0 1e-17 = true /\ aniso 1e-17 0 1e-17 > 0 /\
   E_of_I2 1e-17 0 1e-17 0 = E_of_I2 1e-17 0 1e-17 (1 / 3)).
Proof.
  assert (Hclamp : forall x, 144 / 625 <= x ->
            E_of_I2 1 (-10) 0 x = 1e16).
  { intros x Hx. unfold E_of_I2.
    rewrite Rmax_floor_clamped by (unfold Einv_floor; lra).
    unfold Einv_floor. lra. }
  assert (HI : I2_of (3 / 5) (4 / 5) 0 = 144 / 625)
    by (unfold I2_of; field).
  split.
  - repeat split.
    + unfold aniso. lra.
    + lra.
    + rewrite HI. lra.
    + rewrite HI, !Hclamp by lra. reflexivity.
    + unfold is_unit. field.
    + intros [H _]. apply abs_eq_iff_sq_eq in H. lra.
    + intros m1 m2 m3 _. unfold E_of_n at 2. rewrite HI, Hclamp by lra.
      apply E_of_I2_bounds.
  - split; [apply stability_ok_true_iff; lra|].
    split; [unfold aniso; lra|].
    unfold E_of_I2.
    now rewrite !Rmax_floor_clamped by (unfold Einv_floor; lra).
Qed.

(** C5, amended.  When S11 - S12 - 0.5*S44 > 0 the pointwise modulus is a
    non-decreasing function of I2, strictly increasing as long as Einv stays
    at or above the floor; its maximum over unit directions is the value at
    I2 = 1/3, attained at every <111>-type direction, and at those only when
    Einv at I2 = 1/3 is not below the floor.  When S11 - S12 - 0.5*S44 < 0
    the modulus is non-increasing in I2 and its maximum is the value at
    I2 = 0, attained at every <100>-type direction. *)
Theorem C5_extremal_directions (S11 S12 S44 : R) :
  (aniso S11 S12 S44 > 0 ->
   (forall x y : R, x <= y ->
      E_of_I2 S11 S12 S44 x <= E_of_I2 S11 S12 S44 y) /\
   (forall x y : R, x < y ->
      Einv_floor <= S11 - 2.0 * (S11 - S12 - 0.5 * S44) * y ->
      E_of_I2 S11 S12 S44 x < E_of_I2 S11 S12 S44 y) /\
   (forall n1 n2 n3 : R, is_unit n1 n2 n3 ->
      E_of_n S11 S12 S44 n1 n2 n3 <= E_of_I2 S11 S12 S44 (1 / 3)) /\
   (forall n1 n2 n3 : R, is_unit n1 n2 n3 -> dir_111 n1 n2 n3 ->
      E_of_n S11 S12 S44 n1 n2 n3 = E_of_I2 S11 S12 S44 (1 / 3)) /\
   (Einv_floor <= S11 - 2.0 * (S11 - S12 - 0.5 * S44) * (1 / 3) ->
    forall n1 n2 n3 : R, is_unit n1 n2 n3 ->
      E_of_n S11 S12 S44 n1 n2 n3 = E_of_I2 S11 S12 S44 (1 / 3) ->
      dir_111 n1 n2 n3))
  /\
  (aniso S11 S12 S44 < 0 ->
   (forall x y : R, x <= y ->
      E_of_I2 S11 S12 S44 y <= E_of_I2 S11 S12 S44 x) /\
   (forall n1 n2 n3 : R,
      E_of_n S11 S12 S44 n1 n2 n3 <= E_of_I2 S11 S12 S44 0) /\
   (forall n1 n2 n3 : R, is_unit n1 n2 n3 -> dir_100 n1 n2 n3 ->
      E_of_n S11 S12 S44 n1 n2 n3 = E_of_I2 S11 S12 S44 0)).
Proof.
  split; intros HA.
  - split; [intros x y; now apply E_of_I2_increasing|].
    split; [intros x y; now apply E_of_I2_strictly_increasing|].
    split; [|split].
    + intros n1 n2 n3 Hu. unfold E_of_n.
      apply E_of_I2_increasing; [exact HA | now apply I2_le_third].
    + intros n1 n2 n3 Hu Hd. unfold E_of_n.
      now rewrite (proj2 (I2_eq_third_iff n1 n2 n3 Hu) Hd).
    + intros Hfloor n1 n2 n3 Hu Heq.
      apply (I2_eq_third_iff n1 n2 n3 Hu).
      destruct (Rle_lt_or_eq_dec _ _ (I2_le_third n1 n2 n3 Hu))
        as [Hlt|Hq]; [|exact Hq].
      exfalso. unfold E_of_n in Heq.
      pose proof (E_of_I2_strictly_increasing S11 S12 S44 _ _ HA Hlt Hfloor).
      lra.
  - split; [intros x y; now apply E_of_I2_decreasing|].
    split.
    + intros n1 n2 n3. unfold E_of_n.
      apply E_of_I2_decreasing; [exact HA | apply I2_of_nonneg].
    + intros n1 n2 n3 Hu Hd. unfold E_of_n.
      now rewrite (proj2 (I2_eq_zero_iff n1 n2 n3 Hu) Hd).
Qed.

Lemma C5_extremal_directions_witness :
  (aniso 3 0 0 > 0 /\
   Einv_floor <= 3 - 2.0 * (3 - 0 - 0.5 * 0) * (1 / 3) /\
   E_of_I2 3 0 0 0 < E_of_I2 3 0 0 (1 / 3) /\
   is_unit 1 0 0 /\
   E_of_n 3 0 0 1 0 0 <= E_of_I2 3 0 0 (1 / 3)) /\
  (aniso 1 2 0 < 0 /\ is_unit 1 0 0 /\ dir_100 1 0 0 /\
   E_of_n 1 2 0 1 0 0 = E_of_I2 1 2 0 0).
Proof.
  assert (H3 : aniso 3 0 0 > 0) by (unfold aniso; lra).
  assert (Hf : Einv_floor <= 3 - 2.0 * (3 - 0 - 0.5 * 0) * (1 / 3))
    by (unfold Einv_floor; lra).
  assert (Hu : is_unit 1 0 0) by (unfold is_unit; ring).
  assert (H1 : aniso 1 2 0 < 0) by (unfold aniso; lra).
  assert (Hd : dir_100 1 0 0) by (right; left; split; reflexivity).
  assert (Hlt : 0 < 1 / 3) by lra.
  destruct (C5_extremal_directions 3 0 0) as [Hpos _].
  destruct (Hpos H3) as (_ & Hstrict & Hmax & _).
  destruct (C5_extremal_directions 1 2 0) as [_ Hneg].
  destruct (Hneg H1) as (_ & _ & Hax).
  split.
  - split; [exact H3|]. split; [exact Hf|].
    split; [exact (Hstrict 0 (1 / 3) Hlt Hf)|].
    split; [exact Hu | exact (Hmax 1 0 0 Hu)].
  - split; [exact H1|]. split; [exact Hu|].
    split; [exact Hd | exact (Hax 1 0 0 Hu Hd)].
Defined.

(** ** The sampling grid *)

(** C6 as stated fails for phi: [np.linspace(0, 2*np.pi, samples)] keeps its
    endpoint, so the last phi sample is 2 pi itself and the samples do not
    all lie in the half-open interval [0, 2 pi). *)
Lemma C6_phi_endpoint_counterexample :
  nth 1 (phi_grid 2) 0 = 2 * PI /\
  ~ Forall (fun p => 0 <= p < 2 * PI) (phi_grid 2).
Proof.
  assert (H : nth 1 (phi_grid 2) 0 = 2 * PI)
    by (apply (linspace_last 0 (2 * PI) 2); lia).
  split; [exact H|].
  intros HF. rewrite Forall_forall in HF.
  assert (Hin : In (nth 1 (phi_grid 2) 0) (phi_grid 2))
    by (apply nth_In; rewrite length_phi_grid; lia).
  apply HF in Hin. rewrite H in Hin. lra.
Qed.

(** C6, amended: theta is [samples] uniformly spaced values over the closed
    interval [0, pi] and phi is [samples] uniformly spaced values over the
    closed interval [0, 2 pi], both endpoints included; every theta is
    paired with every phi, row [i] holding phi[i] and column [j] theta[j],
    and the four returned arrays have shape (samples, samples). *)
Theorem C6_grid_closed_intervals (S11 S12 S44 : R) (samples : nat) :
  (2 <= samples)%nat ->
  (length (theta_grid samples) = samples /\
   length (phi_grid samples) = samples) /\
  (forall k : nat, (k < samples)%nat ->
     nth k (theta_grid samples) 0 = INR k * (PI / INR (samples - 1)) /\
     nth k (phi_grid samples) 0 = INR k * (2 * PI / INR (samples - 1))) /\
  (nth 0 (theta_grid samples) 0 = 0 /\
   nth (samples - 1) (theta_grid samples) 0 = PI /\
   nth 0 (phi_grid samples) 0 = 0 /\
   nth (samples - 1) (phi_grid samples) 0 = 2 * PI) /\
  (Forall (fun t => 0 <= t <= PI) (theta_grid samples) /\
   Forall (fun p => 0 <= p <= 2 * PI) (phi_grid samples)) /\
  (Np.shape (field_E (directional_E_cubic_from_S S11 S12 S44 samples))
            samples samples /\
   Np.shape (field_ax (directional_E_cubic_from_S S11 S12 S44 samples))
            samples samples /\
   Np.shape (field_ay (directional_E_cubic_from_S S11 S12 S44 samples))
            samples samples /\
   Np.shape (field_az (directional_E_cubic_from_S S11 S12 S44 samples))
            samples samples) /\
  (forall i j : nat, (i < samples)%nat -> (j < samples)%nat ->
     Np.cell (field_ax (directional_E_cubic_from_S S11 S12 S44 samples)) i j
     = n1_at (nth j (theta_grid samples) 0) (nth i (phi_grid samples) 0) /\
     Np.cell (field_ay (directional_E_cubic_from_S S11 S12 S44 samples)) i j
     = n2_at (nth j (theta_grid samples) 0) (nth i (phi_grid samples) 0) /\
     Np.cell (field_az (directional_E_cubic_from_S S11 S12 S44 samples)) i j
     = n3_at (nth j (theta_grid samples) 0) (nth i (phi_grid samples) 0) /\
     Np.cell (field_E (directional_E_cubic_from_S S11 S12 S44 samples)) i j
     = E_at S11 S12 S44 (nth j (theta_grid samples) 0)
            (nth i (phi_grid samples) 0)).
Proof.
  intros Hn.
  pose proof PI_RGT_0 as Hpi.
  split; [split; [apply length_theta_grid | apply length_phi_grid]|].
  split.
  { intros k Hk. unfold theta_grid, phi_grid.
    rewrite !nth_linspace by exact Hk.
    split; rewrite Rminus_0_r; ring. }
  split.
  { unfold theta_grid, phi_grid.
    rewrite !linspace_first, !linspace_last by lia. repeat split. }
  split.
  { split; apply Forall_forall; intros x Hx.
    - apply (linspace_bounds 0 PI samples); [lra | exact Hx].
    - apply (linspace_bounds 0 (2 * PI) samples); [lra | exact Hx]. }
  split.
  { rewrite directional_E_tabulated. simpl.
    repeat split;
      match goal with
      | |- length (tabulate2 ?f ?xs ?ys) = _ =>
          rewrite (proj1 (tabulate2_shape f xs ys)); apply length_phi_grid
      | |- Forall _ (tabulate2 ?f ?xs ?ys) =>
          pose proof (proj2 (tabulate2_shape f xs ys)) as H;
          now rewrite length_theta_grid in H
      end. }
  intros i j Hi Hj.
  now rewrite cell_field_ax, cell_field_ay, cell_field_az, cell_field_E.
Qed.

Lemma C6_grid_closed_intervals_witness :
  (2 <= 2)%nat /\
  nth 0 (theta_grid 2) 0 = 0 /\ nth (2 - 1) (theta_grid 2) 0 = PI /\
  nth 0 (phi_grid 2) 0 = 0 /\ nth (2 - 1) (phi_grid 2) 0 = 2 * PI.
Proof.
  split; [lia|].
  apply (C6_grid_closed_intervals 1 0 1 2). lia.
Defined.

(** ** The stability warning *)

Lemma main_printed (a : Args) :
  fst (main a)
  = if negb (stability_ok (args_S11 a) (args_S12 a) (args_S44 a))
    then warning_lines else [].
Proof.
  unfold main.
  destruct (args_samples a <? 0)%Z; [reflexivity|].
  now destruct (directional_E_cubic_from_S _ _ _ _) as [[[E ax] ay] az].
Qed.

Lemma main_render (a : Args) :
  (0 <= args_samples a)%Z ->
  exists call : render_call,
    snd (main a) = Some call /\
    (rc_E call, rc_ax call, rc_ay call, rc_az call)
    = directional_E_cubic_from_S (args_S11 a) (args_S12 a) (args_S44 a)
                                 (Z.to_nat (args_samples a)).
Proof.
  intros Hs. unfold main.
  destruct (Z.ltb_spec (args_samples a) 0) as [Hneg|_]; [lia|].
  destruct (directional_E_cubic_from_S _ _ _ _) as [[[E ax] ay] az].
  eexists; split; reflexivity.
Qed.

(** C7: the warning is printed exactly when one of S11 > 0, S44 > 0,
    S11 - S12 > 0, S11 + 2 S12 > 0 fails; it is the only thing that differs
    between the two cases, and whenever the evaluator accepts [samples] the
    renderer is called with the field computed from (S11, S12, S44, samples)
    alone, warning or not. *)
Theorem C7_warning_nonfatal (a : Args) :
  (warned a = true
   <-> ~ (args_S11 a > 0 /\ args_S44 a > 0 /\
          args_S11 a - args_S12 a > 0 /\
          args_S11 a + 2 * args_S12 a > 0)) /\
  (fst (main a) = if warned a then warning_lines else []) /\
  ((0 <= args_samples a)%Z ->
   exists call : render_call,
     snd (main a) = Some call /\
     (rc_E call, rc_ax call, rc_ay call, rc_az call)
     = directional_E_cubic_from_S (args_S11 a) (args_S12 a) (args_S44 a)
                                  (Z.to_nat (args_samples a))).
Proof.
  assert (Hw : warned a
               = negb (stability_ok (args_S11 a) (args_S12 a) (args_S44 a))).
  { unfold warned. rewrite main_printed.
    now destruct (stability_ok _ _ _). }
  split; [|split].
  - rewrite Hw, negb_true_iff, <- stability_ok_true_iff.
    destruct (stability_ok _ _ _); split; intros; try easy; congruence.
  - rewrite Hw. apply main_printed.
  - apply main_render.
Qed.

Lemma C7_warning_nonfatal_witness :
  (0 <= args_samples (mkArgs "Cu" (-1) 0 1 2 "turbo"))%Z /\
  exists call : render_call,
    snd (main (mkArgs "Cu" (-1) 0 1 2 "turbo")) = Some call /\
    (rc_E call, rc_ax call, rc_ay call, rc_az call)
    = directional_E_cubic_from_S (-1) 0 1 2.
Proof.
  split; [simpl; lia|].
  apply (C7_warning_nonfatal (mkArgs "Cu" (-1) 0 1 2 "turbo")).
  simpl; lia.
Defined.

(** ** Colour normalisation of a constant field *)

Lemma fold_left_constant (f : R -> R -> R) (v : R) (xs : list R) :
  f v v = v -> Forall (fun e => e = v) xs -> fold_left f xs v = v.
Proof.
  intros Hf HF. induction HF as [|x xs -> _ IH]; simpl; [reflexivity|].
  now rewrite Hf.
Qed.

Lemma reduce_constant (f : R -> R -> R) (v : R) (A : Np.arr) :
  f v v = v -> concat A <> [] -> Forall (Forall (fun e => e = v)) A ->
  Np.reduce f A = Some v.
Proof.
  intros Hf Hne HA. unfold Np.reduce.
  apply Forall_concat in HA.
  destruct (concat A) as [|x xs]; [contradiction|].
  inversion HA as [|? ? -> Hxs]; subst.
  now rewrite fold_left_constant.
Qed.

Lemma Normalize_zero_width (v : R) (A : Np.arr) :
  Mpl.Normalize v v A = Some (Np.ufunc (fun _ => 0) A).
Proof.
  unfold Mpl.Normalize.
  destruct (Req_dec_T v v) as [_|Hne]; [reflexivity | contradiction].
Qed.

Lemma face_colors_constant (colormaps : string -> option (R -> Mpl.rgba))
    (cmap_name : string) (cmap : R -> Mpl.rgba) (E : Np.arr) (v : R) :
  colormaps cmap_name = Some cmap ->
  concat E <> [] ->
  Forall (Forall (fun e => e = v)) E ->
  Mpl.face_colors colormaps cmap_name E
  = Some (map (map (fun _ => cmap 0)) E).
Proof.
  intros Hc Hne HE. unfold Mpl.face_colors, Np.amin, Np.amax.
  rewrite (reduce_constant Rmin v), (reduce_constant Rmax v);
    try assumption;
    [| apply Rmax_left; lra | apply Rmin_left; lra].
  rewrite Hc, Normalize_zero_width.
  unfold Np.ufunc. rewrite map_map.
  f_equal. apply map_ext; intros row. now rewrite map_map.
Qed.

(** C8 as stated fails in its colour: a zero-width range is normalised to 0,
    the low end of the scale, not to the midpoint 1/2.  With a linear grey
    ramp as colormap the constant field [[3, 3], [3, 3]] is drawn in the
    colour of 0, which is not the colour of 1/2. *)
Lemma C8_not_midpoint_counterexample :
  Np.amin [[3; 3]; [3; 3]] = Some 3 /\
  Np.amax [[3; 3]; [3; 3]] = Some 3 /\
  Mpl.Normalize 3 3 [[3; 3]; [3; 3]] = Some [[0; 0]; [0; 0]] /\
  Mpl.face_colors grey_registry "turbo" [[3; 3]; [3; 3]]
  = Some [[grey_ramp 0; grey_ramp 0]; [grey_ramp 0; grey_ramp 0]] /\
  grey_ramp 0 <> grey_ramp (1 / 2).
Proof.
  assert (HE : Forall (Forall (fun e => e = 3)) [[3; 3]; [3; 3]])
    by (repeat constructor).
  assert (Hne : concat [[3; 3]; [3; 3]] <> []) by discriminate.
  split; [apply reduce_constant; [apply Rmin_left; lra | easy | easy]|].
  split; [apply reduce_constant; [apply Rmax_left; lra | easy | easy]|].
  split; [apply Normalize_zero_width|].
  split.
  - now rewrite (face_colors_constant grey_registry "turbo" grey_ramp _ 3).
  - unfold grey_ramp. intros H. injection H as H. lra.
Qed.

(** C8, amended: when the field is non-empty and all its entries are equal,
    [E.min() == E.max()], the normalisation takes its zero-width branch,
    nothing is divided and nothing is raised, and every grid cell receives
    one and the same colour: the colour the colormap gives to the
    normalised value 0, the low end of the scale. *)
Theorem C8_constant_field_one_color
    (colormaps : string -> option (R -> Mpl.rgba)) (cmap_name : string)
    (cmap : R -> Mpl.rgba) (E : Np.arr) (v : R) :
  colormaps cmap_name = Some cmap ->
  concat E <> [] ->
  Forall (Forall (fun e => e = v)) E ->
  Np.amin E = Some v /\ Np.amax E = Some v /\
  Mpl.Normalize v v E = Some (Np.ufunc (fun _ => 0) E) /\
  Mpl.face_colors colormaps cmap_name E
  = Some (map (map (fun _ => cmap 0)) E).
Proof.
  intros Hc Hne HE.
  split; [apply reduce_constant; [apply Rmin_left; lra | easy | easy]|].
  split; [apply reduce_constant; [apply Rmax_left; lra | easy | easy]|].
  split; [apply Normalize_zero_width|].
  now apply (face_colors_constant colormaps cmap_name cmap E v).
Qed.

Lemma C8_constant_field_one_color_witness :
  grey_registry "turbo" = Some grey_ramp /\
  concat [[7; 7]; [7; 7]] <> [] /\
  Forall (Forall (fun e => e = 7)) [[7; 7]; [7; 7]] /\
  Mpl.face_colors grey_registry "turbo" [[7; 7]; [7; 7]]
  = Some (map (map (fun _ => grey_ramp 0)) [[7; 7]; [7; 7]]).
Proof.
  assert (Hc : grey_registry "turbo" = Some grey_ramp) by reflexivity.
  assert (Hne : concat [[7; 7]; [7; 7]] <> []) by discriminate.
  assert (HE : Forall (Forall (fun e => e = 7)) [[7; 7]; [7; 7]])
    by (repeat constructor).
  split; [exact Hc|]. split; [exact Hne|]. split; [exact HE|].
  apply (C8_constant_field_one_color grey_registry "turbo" grey_ramp
           [[7; 7]; [7; 7]] 7 Hc Hne HE).
Defined.

(** ** The poles *)

Lemma E_of_I2_zero (S11 S12 S44 : R) :
  E_of_I2 S11 S12 S44 0 = 1 / Rmax S11 Einv_floor.
Proof.
  unfold E_of_I2.
  replace (S11 - 2.0 * (S11 - S12 - 0.5 * S44) * 0) with S11 by lra.
  f_equal. lra.
Qed.

Lemma pole_direction (t p : R) :
  Rtrigo_def.sin t = 0 ->
  n1_at t p = 0 /\ n2_at t p = 0 /\
  I2_of (n1_at t p) (n2_at t p) (n3_at t p) = 0.
Proof.
  intros Hs. unfold I2_of, n1_at, n2_at, n3_at. rewrite Hs.
  repeat split; ring.
Qed.

Lemma E_at_pole (S11 S12 S44 t p : R) :
  Rtrigo_def.sin t = 0 -> E_at S11 S12 S44 t p = 1 / Rmax S11 Einv_floor.
Proof.
  intros Hs. unfold E_at, E_of_n.
  destruct (pole_direction t p Hs) as (_ & _ & ->).
  apply E_of_I2_zero.
Qed.

(** C9, amended: in exact real arithmetic, in the grid cells with theta = 0
    and with theta = pi (columns 0 and samples - 1 of each returned array,
    for every phi index [i]) the direction is (0, 0, 1) resp. (0, 0, -1),
    the invariant I2 vanishes, and the modulus is 1 / max(S11, 1e-16), hence
    1 / S11 whenever S11 >= 1e-16, whatever S12 and S44 are. *)
Theorem C9_poles (S11 S12 S44 : R) (samples i : nat) :
  (2 <= samples)%nat -> (i < samples)%nat ->
  (nth 0 (theta_grid samples) 0 = 0 /\
   nth (samples - 1) (theta_grid samples) 0 = PI) /\
  (Np.cell (field_ax (directional_E_cubic_from_S S11 S12 S44 samples)) i 0
   = 0 /\
   Np.cell (field_ay (directional_E_cubic_from_S S11 S12 S44 samples)) i 0
   = 0 /\
   Np.cell (field_az (directional_E_cubic_from_S S11 S12 S44 samples)) i 0
   = 1) /\
  (Np.cell (field_ax (directional_E_cubic_from_S S11 S12 S44 samples))
           i (samples - 1) = 0 /\
   Np.cell (field_ay (directional_E_cubic_from_S S11 S12 S44 samples))
           i (samples - 1) = 0 /\
   Np.cell (field_az (directional_E_cubic_from_S S11 S12 S44 samples))
           i (samples - 1) = -1) /\
  (I2_of 0 0 1 = 0 /\ I2_of 0 0 (-1) = 0) /\
  (Np.cell (modulus_field S11 S12 S44 samples) i 0
   = 1 / Rmax S11 1e-16 /\
   Np.cell (modulus_field S11 S12 S44 samples) i (samples - 1)
   = 1 / Rmax S11 1e-16) /\
  (1e-16 <= S11 ->
   Np.cell (modulus_field S11 S12 S44 samples) i 0 = 1 / S11 /\
   Np.cell (modulus_field S11 S12 S44 samples) i (samples - 1) = 1 / S11).
Proof.
  intros Hn Hi.
  assert (H0 : nth 0 (theta_grid samples) 0 = 0)
    by (apply linspace_first; lia).
  assert (Hpi : nth (samples - 1) (theta_grid samples) 0 = PI)
    by (apply linspace_last; lia).
  assert (HE0 : Np.cell (modulus_field S11 S12 S44 samples) i 0
                = 1 / Rmax S11 Einv_floor).
  { unfold modulus_field. rewrite cell_field_E, H0 by lia.
    apply E_at_pole, sin_0. }
  assert (HEpi : Np.cell (modulus_field S11 S12 S44 samples) i (samples - 1)
                 = 1 / Rmax S11 Einv_floor).
  { unfold modulus_field. rewrite cell_field_E, Hpi by lia.
    apply E_at_pole, sin_PI. }
  split; [now split|].
  split.
  { rewrite cell_field_ax, cell_field_ay, cell_field_az, H0 by lia.
    unfold n1_at, n2_at, n3_at. rewrite sin_0, cos_0.
    repeat split; ring. }
  split.
  { rewrite cell_field_ax, cell_field_ay, cell_field_az, Hpi by lia.
    unfold n1_at, n2_at, n3_at. rewrite sin_PI, cos_PI.
    repeat split; ring. }
  split; [unfold I2_of; split; ring|].
  split; [now split|].
  intros HS. rewrite HE0, HEpi, Rmax_floor_id by exact HS. now split.
Qed.

Lemma C9_poles_witness :
  (2 <= 3)%nat /\ (1 < 3)%nat /\ 1e-16 <= 2 /\
  Np.cell (modulus_field 2 (-1) 5 3) 1 0 = 1 / 2 /\
  Np.cell (modulus_field 2 (-1) 5 3) 1 (3 - 1) = 1 / 2.
Proof.
  assert (Hn : (2 <= 3)%nat) by lia.
  assert (Hi : (1 < 3)%nat) by lia.
  assert (HS : 1e-16 <= 2) by lra.
  split; [exact Hn|]. split; [exact Hi|]. split; [exact HS|].
  exact (proj2 (proj2 (proj2 (proj2 (proj2
           (C9_poles 2 (-1) 5 3 1 Hn Hi))))) HS).
Defined.

(** C9 as stated fails in binary64 at theta = pi: there [np.sin(np.pi)] is
    1.22e-16, so n1 is not 0 and I2 is about 1.5e-32.  With S11 = 1,
    S12 = -1e33, S44 = 0 the modulus in cell [0, samples - 1] is 1e16, and
    with the stable S11 = 1, S12 = 0, S44 = 1e33 it is about 0.0625, where
    1 / max(S11, 1e-16) is 1 (the value the theta = 0 cell does have): the
    pole value depends on S12 and S44. *)
#[warnings="-inexact-float"]
Lemma C9_binary64_south_pole_counterexample :
  (1 / B64.maximum 1 B64.Einv_floor = 1)%float /\
  B64.E_cell 1 (-1e33) 0 B64.ax_00 B64.ay_00 B64.az_00 = 1%float /\
  B64.E_cell 1 (-1e33) 0 ax_pi_b64 ay_pi_b64 az_pi_b64 = 1e16%float /\
  B64.E_cell 1 0 1e33 ax_pi_b64 ay_pi_b64 az_pi_b64
  = 0.062509384898780815%float /\
  (B64.E_cell 1 (-1e33) 0 ax_pi_b64 ay_pi_b64 az_pi_b64 =? 1)%float = false /\
  (B64.E_cell 1 0 1e33 ax_pi_b64 ay_pi_b64 az_pi_b64 =? 1)%float = false.
Proof. vm_compute. repeat split. Qed.

(** ** The azimuthal seam *)

Lemma row_tabulate2 (f : R -> R -> R) (xs ys : list R) (i : nat) :
  (i < length ys)%nat ->
  nth i (tabulate2 f xs ys) [] = map (fun x => f x (nth i ys 0)) xs.
Proof.
  intros Hi. unfold tabulate2.
  rewrite (nth_indep _ [] (map (fun x => f x 0) xs))
    by (now rewrite length_map).
  apply (map_nth (fun y => map (fun x => f x y) xs)).
Qed.

Lemma seam_rows (f : R -> R -> R) (n : nat) :
  (2 <= n)%nat ->
  (forall t : R, f t 0 = f t (2 * PI)) ->
  nth 0 (tabulate2 f (theta_grid n) (phi_grid n)) []
  = nth (n - 1) (tabulate2 f (theta_grid n) (phi_grid n)) [].
Proof.
  intros Hn Hf.
  rewrite !row_tabulate2 by (rewrite length_phi_grid; lia).
  unfold phi_grid. rewrite linspace_first, linspace_last by lia.
  apply map_ext, Hf.
Qed.



(** * Further properties of the renderer, the driver and the grid *)

(** ** Minimum and maximum of a field *)

Lemma fold_left_Rmin_spec (xs : list R) (x : R) :
  In (fold_left Rmin xs x) (x :: xs) /\
  Forall (fun e => fold_left Rmin xs x <= e) (x :: xs).
Proof.
  revert x. induction xs as [|y ys IH]; intros x; simpl.
  - split; [now left | constructor; [lra | constructor]].
  - destruct (IH (Rmin x y)) as [Hin Hle].
    inversion Hle as [|? ? Hhd Htl]; subst.
    split.
    + destruct Hin as [Hin|Hin]; [|now right; right].
      rewrite <- Hin. unfold Rmin. destruct (Rle_dec x y); auto.
    + pose proof (Rmin_l x y). pose proof (Rmin_r x y).
      constructor; [lra|]. constructor; [lra | exact Htl].
Qed.

Lemma fold_left_Rmax_spec (xs : list R) (x : R) :
  In (fold_left Rmax xs x) (x :: xs) /\
  Forall (fun e => e <= fold_left Rmax xs x) (x :: xs).
Proof.
  revert x. induction xs as [|y ys IH]; intros x; simpl.
  - split; [now left | constructor; [lra | constructor]].
  - destruct (IH (Rmax x y)) as [Hin Hle].
    inversion Hle as [|? ? Hhd Htl]; subst.
    split.
    + destruct Hin as [Hin|Hin]; [|now right; right].
      rewrite <- Hin. unfold Rmax. destruct (Rle_dec x y); auto.
    + pose proof (Rmax_l x y). pose proof (Rmax_r x y).
      constructor; [lra|]. constructor; [lra | exact Htl].
Qed.

Lemma amin_spec (A : Np.arr) :
  concat A <> [] ->
  exists m : R, Np.amin A = Some m /\ In m (concat A) /\
                Forall (Forall (fun e => m <= e)) A.
Proof.
  intros Hne. unfold Np.amin, Np.reduce.
  destruct (concat A) as [|x xs] eqn:HC; [contradiction|].
  exists (fold_left Rmin xs x). split; [reflexivity|].
  destruct (fold_left_Rmin_spec xs x) as [Hin Hle].
  split; [exact Hin|].
  apply Forall_concat. now rewrite HC.
Qed.

Lemma amax_spec (A : Np.arr) :
  concat A <> [] ->
  exists m : R, Np.amax A = Some m /\ In m (concat A) /\
                Forall (Forall (fun e => e <= m)) A.
Proof.
  intros Hne. unfold Np.amax, Np.reduce.
  destruct (concat A) as [|x xs] eqn:HC; [contradiction|].
  exists (fold_left Rmax xs x). split; [reflexivity|].
  destruct (fold_left_Rmax_spec xs x) as [Hin Hle].
  split; [exact Hin|].
  apply Forall_concat. now rewrite HC.
Qed.

Lemma Forall2d_and (P Q : R -> Prop) (A : Np.arr) :
  Forall (Forall P) A -> Forall (Forall Q) A ->
  Forall (Forall (fun e => P e /\ Q e)) A.
Proof.
  intros HP HQ. rewrite <- Forall_concat in *.
  rewrite Forall_forall in *. intros e He. split; auto.
Qed.

Lemma Forall2d_ufunc (Q : R -> Prop) (f : R -> R) (A : Np.arr) :
  Forall (Forall (fun e => Q (f e))) A -> Forall (Forall Q) (Np.ufunc f A).
Proof.
  intros H. unfold Np.ufunc.
  apply Forall_map. eapply Forall_impl; [|exact H].
  intros row Hrow. now apply Forall_map.
Qed.

Lemma Forall2d_impl (P Q : R -> Prop) (A : Np.arr) :
  (forall e, P e -> Q e) -> Forall (Forall P) A -> Forall (Forall Q) A.
Proof.
  intros HPQ H. eapply Forall_impl; [|exact H].
  intros row. now apply Forall_impl.
Qed.

(** The normalised data of a non-empty field: the reversed-range error of
    the normaliser cannot occur and all values lie in [0, 1]. *)
Lemma normalized_field_unit_interval (E : Np.arr) :
  concat E <> [] ->
  exists (vmin vmax : R) (X : Np.arr),
    Np.amin E = Some vmin /\ Np.amax E = Some vmax /\ vmin <= vmax /\
    normalized_field E = Some X /\
    Forall (Forall (fun x => 0 <= x <= 1)) X.
Proof.
  intros Hne.
  destruct (amin_spec E Hne) as (vmin & Hmin & Hinmin & Hlo).
  destruct (amax_spec E Hne) as (vmax & Hmax & _ & Hhi).
  assert (Hle : vmin <= vmax).
  { rewrite <- Forall_concat in Hhi. rewrite Forall_forall in Hhi.
    now apply Hhi. }
  unfold normalized_field. rewrite Hmin, Hmax. unfold Mpl.Normalize.
  destruct (Req_dec_T vmin vmax) as [Heq|Hneq].
  - exists vmin, vmax, (Np.ufunc (fun _ => 0) E).
    repeat split; try assumption; try reflexivity.
    apply Forall2d_ufunc.
    apply (Forall2d_impl (fun e => vmin <= e)); [intros; lra | exact Hlo].
  - destruct (Rlt_dec vmax vmin) as [Hlt|_]; [lra|].
    exists vmin, vmax, (Np.ufunc (fun x => (x - vmin) / (vmax - vmin)) E).
    repeat split; try assumption; try reflexivity.
    apply Forall2d_ufunc.
    apply (Forall2d_impl (fun e => vmin <= e /\ e <= vmax));
      [|now apply Forall2d_and].
    intros e [H1 H2].
    assert (Hd : 0 < vmax - vmin) by lra.
    split.
    + apply Rmult_le_pos; [lra | left; now apply Rinv_0_lt_compat].
    + apply (Rmult_le_reg_r (vmax - vmin)); [exact Hd|].
      unfold Rdiv. rewrite Rmult_assoc, Rinv_l by lra. lra.
Qed.

Lemma face_colors_normalized (colormaps : string -> option (R -> Mpl.rgba))
    (cmap_name : string) (E : Np.arr) :
  Mpl.face_colors colormaps cmap_name E
  = match normalized_field E, colormaps cmap_name with
    | Some X, Some cmap => Some (map (map cmap) X)
    | _, _ => None
    end.
Proof.
  unfold Mpl.face_colors, normalized_field.
  destruct (Np.amin E) as [vmin|]; [|reflexivity].
  destruct (Np.amax E) as [vmax|]; [|reflexivity].
  destruct (colormaps cmap_name) as [cmap|];
    now destruct (Mpl.Normalize vmin vmax E).
Qed.

(** ** The colour step and the failures of the renderer *)

Lemma face_colors_nonempty (colormaps : string -> option (R -> Mpl.rgba))
    (cmap_name : string) (cmap : R -> Mpl.rgba) (E : Np.arr) :
  colormaps cmap_name = Some cmap -> concat E <> [] ->
  exists X : Np.arr,
    normalized_field E = Some X /\
    Forall (Forall (fun x => 0 <= x <= 1)) X /\
    Mpl.face_colors colormaps cmap_name E = Some (map (map cmap) X).
Proof.
  intros Hc Hne.
  destruct (normalized_field_unit_interval E Hne)
    as (vmin & vmax & X & _ & _ & _ & HX & H01).
  exists X. repeat split; try assumption.
  now rewrite face_colors_normalized, HX, Hc.
Qed.

Lemma face_colors_empty (colormaps : string -> option (R -> Mpl.rgba))
    (cmap_name : string) (E : Np.arr) :
  concat E = [] -> Mpl.face_colors colormaps cmap_name E = None.
Proof.
  intros HE. unfold Mpl.face_colors, Np.amin, Np.reduce. now rewrite HE.
Qed.

Lemma face_colors_unknown (colormaps : string -> option (R -> Mpl.rgba))
    (cmap_name : string) (E : Np.arr) :
  colormaps cmap_name = None -> Mpl.face_colors colormaps cmap_name E = None.
Proof.
  intros Hc. rewrite face_colors_normalized, Hc.
  now destruct (normalized_field E).
Qed.

(** X1: in exact real arithmetic, that is for a field whose entries are
    real numbers (a binary64 field holding NaN is outside this statement):
    on a non-empty field and with a registered colormap the colour step
    never raises.  The minimum never exceeds the maximum, so the
    normaliser's reversed-range error is unreachable, every normalised value
    lies in [0, 1], and each cell's colour is the colormap applied to its
    normalised value. *)
Theorem X1_color_step_total (colormaps : string -> option (R -> Mpl.rgba))
    (cmap_name : string) (cmap : R -> Mpl.rgba) (E : Np.arr) :
  colormaps cmap_name = Some cmap -> concat E <> [] ->
  exists (vmin vmax : R) (X : Np.arr),
    Np.amin E = Some vmin /\ Np.amax E = Some vmax /\ vmin <= vmax /\
    Mpl.Normalize vmin vmax E = Some X /\
    Forall (Forall (fun x => 0 <= x <= 1)) X /\
    Mpl.face_colors colormaps cmap_name E = Some (map (map cmap) X).
Proof.
  intros Hc Hne.
  destruct (normalized_field_unit_interval E Hne)
    as (vmin & vmax & X & Hmin & Hmax & Hle & HX & H01).
  exists vmin, vmax, X.
  repeat split; try assumption.
  - unfold normalized_field in HX. now rewrite Hmin, Hmax in HX.
  - now rewrite face_colors_normalized, HX, Hc.
Qed.

Lemma X1_color_step_total_witness :
  grey_registry "turbo" = Some grey_ramp /\ concat [[1; 2]; [3; 4]] <> [] /\
  exists (vmin vmax : R) (X : Np.arr),
    Np.amin [[1; 2]; [3; 4]] = Some vmin /\
    Np.amax [[1; 2]; [3; 4]] = Some vmax /\ vmin <= vmax /\
    Mpl.Normalize vmin vmax [[1; 2]; [3; 4]] = Some X /\
    Forall (Forall (fun x => 0 <= x <= 1)) X /\
    Mpl.face_colors grey_registry "turbo" [[1; 2]; [3; 4]]
    = Some (map (map grey_ramp) X).
Proof.
  assert (Hc : grey_registry "turbo" = Some grey_ramp) by reflexivity.
  assert (Hne : concat [[1; 2]; [3; 4]] <> []) by discriminate.
  split; [exact Hc|]. split; [exact Hne|].
  exact (X1_color_step_total grey_registry "turbo" grey_ramp
           [[1; 2]; [3; 4]] Hc Hne).
Defined.







Lemma renderer_fails_iff
    (colormaps : string -> option (R -> Mpl.rgba))
    (E ax ay az : Np.arr) (title cmap_name outfile : string) :
  plot_young_surface_colored colormaps E ax ay az title cmap_name outfile
  = None
  <-> concat E = [] \/ colormaps cmap_name = None.
Proof.
  unfold plot_young_surface_colored. split.
  - intros Hnone.
    destruct (concat E) as [|x xs] eqn:HE; [now left|].
    destruct (colormaps cmap_name) as [cmap|] eqn:Hc; [|now right].
    exfalso.
    assert (Hne : concat E <> []) by (rewrite HE; discriminate).
    destruct (face_colors_nonempty colormaps cmap_name cmap E Hc Hne)
      as (X & _ & _ & HF).
    rewrite HF in Hnone. discriminate.
  - intros [HE|Hc].
    + now rewrite face_colors_empty.
    + now rewrite face_colors_unknown.
Qed.

Lemma length_zip_with {X Y Z : Type} (f : X -> Y -> Z)
    (xs : list X) (ys : list Y) :
  length xs = length ys -> length (Np.zip_with f xs ys) = length xs.
Proof.
  revert ys. induction xs as [|x xs IH]; intros [|y ys] H; simpl in *;
    try reflexivity; try discriminate.
  f_equal. apply IH. now injection H.
Qed.

Lemma nth_zip_with {X Y Z : Type} (f : X -> Y -> Z)
    (xs : list X) (ys : list Y) (i : nat) (dx : X) (dy : Y) (dz : Z) :
  (i < length xs)%nat -> (i < length ys)%nat ->
  nth i (Np.zip_with f xs ys) dz = f (nth i xs dx) (nth i ys dy).
Proof.
  revert ys i. induction xs as [|x xs IH]; intros [|y ys] [|i] Hx Hy;
    simpl in *; try lia; try reflexivity.
  apply IH; lia.
Qed.

Lemma shape_row (A : Np.arr) (r c i : nat) :
  Np.shape A r c -> (i < r)%nat -> length (nth i A []) = c.
Proof.
  intros [Hlen Hrows] Hi. rewrite Forall_forall in Hrows.
  apply Hrows, nth_In. lia.
Qed.

Lemma ufunc2_same_shape (f : R -> R -> R) (A B : Np.arr) (r c : nat) :
  Np.shape A r c -> Np.shape B r c ->
  Np.shape (Np.ufunc2 f A B) r c /\
  (forall i j : nat, (i < r)%nat -> (j < c)%nat ->
     Np.cell (Np.ufunc2 f A B) i j = f (Np.cell A i j) (Np.cell B i j)).
Proof.
  intros HA HB.
  pose proof HA as [HlenA _]. pose proof HB as [HlenB _].
  assert (Hrow : forall i, (i < r)%nat ->
            nth i (Np.ufunc2 f A B) []
            = Np.zip_with f (nth i A []) (nth i B [])).
  { intros i Hi. unfold Np.ufunc2.
    apply (nth_zip_with (Np.zip_with f) A B i [] [] []); lia. }
  assert (Hlen : length (Np.ufunc2 f A B) = r).
  { unfold Np.ufunc2. rewrite length_zip_with; lia. }
  split; [split; [exact Hlen|]|].
  - apply Forall_forall. intros row Hin.
    apply (In_nth _ _ []) in Hin as (i & Hi & <-).
    rewrite Hlen in Hi. rewrite Hrow by exact Hi.
    rewrite length_zip_with;
      rewrite ?(shape_row A r c i HA Hi), ?(shape_row B r c i HB Hi);
      reflexivity.
  - intros i j Hi Hj. unfold Np.cell. rewrite Hrow by exact Hi.
    apply nth_zip_with;
      rewrite ?(shape_row A r c i HA Hi), ?(shape_row B r c i HB Hi);
      exact Hj.
Qed.

(** X3: for arrays of one common shape, as [main] always passes them
    (numpy's broadcasting, or its error on shapes that do not match, is not
    modelled), the renderer fails before drawing in exactly two cases: the
    field has no entry at all (its minimum does not exist), or the colormap
    name is not registered.  In every other case it reaches the backend with
    vertex arrays of that same shape whose cells are the products E*ax,
    E*ay, E*az, and with the title and file name it was given. *)
Theorem X3_renderer_failures
    (colormaps : string -> option (R -> Mpl.rgba))
    (E ax ay az : Np.arr) (title cmap_name outfile : string) (r c : nat) :
  Np.shape E r c -> Np.shape ax r c -> Np.shape ay r c -> Np.shape az r c ->
  (plot_young_surface_colored colormaps E ax ay az title cmap_name outfile
   = None
   <-> concat E = [] \/ colormaps cmap_name = None) /\
  (forall p : surface_plot,
     plot_young_surface_colored colormaps E ax ay az title cmap_name outfile
     = Some p ->
     (Np.shape (sp_X p) r c /\ Np.shape (sp_Y p) r c /\
      Np.shape (sp_Z p) r c) /\
     (forall i j : nat, (i < r)%nat -> (j < c)%nat ->
        Np.cell (sp_X p) i j = Np.cell E i j * Np.cell ax i j /\
        Np.cell (sp_Y p) i j = Np.cell E i j * Np.cell ay i j /\
        Np.cell (sp_Z p) i j = Np.cell E i j * Np.cell az i j) /\
     sp_title p = title /\ sp_outfile p = outfile /\
     Mpl.face_colors colormaps cmap_name E = Some (sp_facecolors p)).
Proof.
  intros HE Hx Hy Hz.
  split; [apply renderer_fails_iff|].
  unfold plot_young_surface_colored. intros p Hp.
  destruct (Mpl.face_colors colormaps cmap_name E) as [colors|];
    [|discriminate].
  injection Hp as <-.
  cbn [sp_X sp_Y sp_Z sp_title sp_outfile sp_facecolors].
  destruct (ufunc2_same_shape Rmult E ax r c HE Hx) as [SX CX].
  destruct (ufunc2_same_shape Rmult E ay r c HE Hy) as [SY CY].
  destruct (ufunc2_same_shape Rmult E az r c HE Hz) as [SZ CZ].
  split; [split; [exact SX | split; [exact SY | exact SZ]]|].
  split; [|repeat split].
  intros i j Hi Hj.
  split; [now apply CX|]. split; [now apply CY | now apply CZ].
Qed.

Lemma shape_1x1 (x : R) : Np.shape [[x]] 1 1.
Proof. split; [reflexivity | repeat constructor]. Qed.

Lemma X3_renderer_failures_witness :
  Np.shape [[1]] 1 1 /\ Np.shape [[0]] 1 1 /\
  empty_registry "turbo" = None /\
  plot_young_surface_colored empty_registry [[1]] [[0]] [[0]] [[1]]
    "Cu" "turbo" "Cu"
  = None.
Proof.
  assert (Hc : empty_registry "turbo" = None) by reflexivity.
  split; [apply shape_1x1|]. split; [apply shape_1x1|].
  split; [exact Hc|].
  exact (proj2 (proj1 (X3_renderer_failures empty_registry
                         [[1]] [[0]] [[0]] [[1]] "Cu" "turbo" "Cu" 1 1
                         (shape_1x1 1) (shape_1x1 0) (shape_1x1 0)
                         (shape_1x1 1)))
               (or_intror Hc)).
Defined.

(** ** The radial surface *)

Lemma surface_tabulated (f : R -> R -> R) (S11 S12 S44 : R) (n : nat) :
  Np.mul (tabulate2 (E_at S11 S12 S44) (theta_grid n) (phi_grid n))
         (tabulate2 f (theta_grid n) (phi_grid n))
  = tabulate2 (fun t p => E_at S11 S12 S44 t p * f t p)
              (theta_grid n) (phi_grid n).
Proof. unfold Np.mul. apply ufunc2_tabulate2. Qed.

Lemma E_at_bounds (S11 S12 S44 t p : R) : 0 < E_at S11 S12 S44 t p <= 1e16.
Proof. unfold E_at, E_of_n. apply E_of_I2_bounds. Qed.

(** X4: the surface is radial.  At every grid cell the vertex
    (E*ax, E*ay, E*az) built on line 79 lies at distance exactly E from the
    origin, in the direction (ax, ay, az), and that distance is positive and
    at most 1e16. *)
Theorem X4_surface_radius (S11 S12 S44 : R) (samples i j : nat) :
  (i < samples)%nat -> (j < samples)%nat ->
  let r := directional_E_cubic_from_S S11 S12 S44 samples in
  let X := Np.mul (field_E r) (field_ax r) in
  let Y := Np.mul (field_E r) (field_ay r) in
  let Z := Np.mul (field_E r) (field_az r) in
  (Np.cell X i j = Np.cell (field_E r) i j * Np.cell (field_ax r) i j /\
   Np.cell Y i j = Np.cell (field_E r) i j * Np.cell (field_ay r) i j /\
   Np.cell Z i j = Np.cell (field_E r) i j * Np.cell (field_az r) i j) /\
  R_sqrt.sqrt (Np.cell X i j ^ 2 + Np.cell Y i j ^ 2 + Np.cell Z i j ^ 2)
  = Np.cell (field_E r) i j /\
  0 < Np.cell (field_E r) i j <= 1e16.
Proof.
  intros Hi Hj r X Y Z. subst X Y Z r.
  rewrite cell_field_E, cell_field_ax, cell_field_ay, cell_field_az
    by assumption.
  rewrite directional_E_tabulated.
  cbn [field_E field_ax field_ay field_az].
  rewrite !surface_tabulated.
  rewrite !cell_tabulate2
    by now rewrite ?length_theta_grid, ?length_phi_grid.
  cbv beta.
  set (t := nth j (theta_grid samples) 0).
  set (p := nth i (phi_grid samples) 0).
  pose proof (E_at_bounds S11 S12 S44 t p) as HE.
  pose proof (direction_unit t p) as Hu. unfold is_unit in Hu.
  split; [repeat split|]. split; [|exact HE].
  replace ((E_at S11 S12 S44 t p * n1_at t p) ^ 2
           + (E_at S11 S12 S44 t p * n2_at t p) ^ 2
           + (E_at S11 S12 S44 t p * n3_at t p) ^ 2)
    with (E_at S11 S12 S44 t p ^ 2
          * (n1_at t p ^ 2 + n2_at t p ^ 2 + n3_at t p ^ 2)) by ring.
  rewrite Hu, Rmult_1_r. apply sqrt_pow2. lra.
Qed.

Lemma X4_surface_radius_witness :
  R_sqrt.sqrt (Np.cell (Np.mul (field_E (directional_E_cubic_from_S 1 0 1 3))
                        (field_ax (directional_E_cubic_from_S 1 0 1 3)))
                2 1 ^ 2
        + Np.cell (Np.mul (field_E (directional_E_cubic_from_S 1 0 1 3))
                          (field_ay (directional_E_cubic_from_S 1 0 1 3)))
                  2 1 ^ 2
        + Np.cell (Np.mul (field_E (directional_E_cubic_from_S 1 0 1 3))
                          (field_az (directional_E_cubic_from_S 1 0 1 3)))
                  2 1 ^ 2)
  = Np.cell (field_E (directional_E_cubic_from_S 1 0 1 3)) 2 1.
Proof.
  apply (X4_surface_radius 1 0 1 3 2 1); lia.
Defined.

(** X5: in exact real arithmetic the surface closes on itself.  The first
    and the last row of each vertex array coincide (the seam phi = 0 /
    2 pi), and each pole is a single point: every vertex of column 0 is
    (0, 0, E0) and every vertex of column samples - 1 is (0, 0, -E0), with
    E0 = 1 / max(S11, 1e-16).  (In binary64 the sines of np.pi and 2*np.pi
    are of the order of 1e-16 instead of 0, so there this holds only
    approximately.) *)
Theorem X5_surface_closed (S11 S12 S44 : R) (samples i : nat) :
  (2 <= samples)%nat -> (i < samples)%nat ->
  let r := directional_E_cubic_from_S S11 S12 S44 samples in
  let X := Np.mul (field_E r) (field_ax r) in
  let Y := Np.mul (field_E r) (field_ay r) in
  let Z := Np.mul (field_E r) (field_az r) in
  (nth 0 X [] = nth (samples - 1) X [] /\
   nth 0 Y [] = nth (samples - 1) Y [] /\
   nth 0 Z [] = nth (samples - 1) Z []) /\
  (Np.cell X i 0 = 0 /\ Np.cell Y i 0 = 0 /\
   Np.cell Z i 0 = 1 / Rmax S11 1e-16) /\
  (Np.cell X i (samples - 1) = 0 /\ Np.cell Y i (samples - 1) = 0 /\
   Np.cell Z i (samples - 1) = - (1 / Rmax S11 1e-16)).
Proof.
  intros Hn Hi r X Y Z. subst X Y Z r.
  rewrite directional_E_tabulated.
  cbn [field_E field_ax field_ay field_az].
  rewrite !surface_tabulated.
  split.
  { repeat split; apply seam_rows; try exact Hn; intros t;
      unfold E_at, n1_at, n2_at, n3_at;
      now rewrite ?sin_0, ?cos_0, ?sin_2PI, ?cos_2PI. }
  rewrite !cell_tabulate2
    by (rewrite ?length_theta_grid, ?length_phi_grid; lia).
  cbv beta.
  unfold theta_grid. rewrite linspace_first, linspace_last by lia.
  rewrite !E_at_pole by (apply sin_0 || apply sin_PI).
  unfold n1_at, n2_at, n3_at. rewrite sin_0, cos_0, sin_PI, cos_PI.
  fold Einv_floor.
  repeat split; ring.
Qed.

Lemma X5_surface_closed_witness :
  nth 0 (Np.mul (field_E (directional_E_cubic_from_S 1 0 1 4))
                (field_ax (directional_E_cubic_from_S 1 0 1 4))) []
  = nth (4 - 1) (Np.mul (field_E (directional_E_cubic_from_S 1 0 1 4))
                        (field_ax (directional_E_cubic_from_S 1 0 1 4))) [].
Proof.
  apply (X5_surface_closed 1 0 1 4 0); lia.
Defined.

(** ** Symmetries of the sampled field *)

Lemma cos_PI_minus (x : R) : Rtrigo_def.cos (PI - x) = - Rtrigo_def.cos x.
Proof. rewrite cos_minus, cos_PI, sin_PI. ring. Qed.

Lemma sin_2PI_minus (x : R) :
  Rtrigo_def.sin (2 * PI - x) = - Rtrigo_def.sin x.
Proof. rewrite sin_minus, cos_2PI, sin_2PI. ring. Qed.

Lemma cos_2PI_minus (x : R) : Rtrigo_def.cos (2 * PI - x) = Rtrigo_def.cos x.
Proof. rewrite cos_minus, cos_2PI, sin_2PI. ring. Qed.

Lemma sin_quarter_turn (x : R) :
  Rtrigo_def.sin (x + PI / 2) = Rtrigo_def.cos x.
Proof. rewrite sin_plus, cos_PI2, sin_PI2. ring. Qed.

Lemma cos_quarter_turn (x : R) :
  Rtrigo_def.cos (x + PI / 2) = - Rtrigo_def.sin x.
Proof. rewrite cos_plus, cos_PI2, sin_PI2. ring. Qed.

Lemma E_at_mirror_theta (S11 S12 S44 t p : R) :
  E_at S11 S12 S44 (PI - t) p = E_at S11 S12 S44 t p.
Proof.
  unfold E_at, E_of_n, n1_at, n2_at, n3_at.
  rewrite sin_PI_x, cos_PI_minus. f_equal. unfold I2_of. ring.
Qed.

Lemma E_at_mirror_phi (S11 S12 S44 t p : R) :
  E_at S11 S12 S44 t (2 * PI - p) = E_at S11 S12 S44 t p.
Proof.
  unfold E_at, E_of_n, n1_at, n2_at, n3_at.
  rewrite sin_2PI_minus, cos_2PI_minus. f_equal. unfold I2_of. ring.
Qed.

Lemma E_at_quarter_turn (S11 S12 S44 t p : R) :
  E_at S11 S12 S44 t (p + PI / 2) = E_at S11 S12 S44 t p.
Proof.
  unfold E_at, E_of_n, n1_at, n2_at, n3_at.
  rewrite sin_quarter_turn, cos_quarter_turn. f_equal. unfold I2_of. ring.
Qed.

Lemma linspace_reflect (b : R) (n k : nat) :
  (2 <= n)%nat -> (k < n)%nat ->
  nth (n - 1 - k) (Np.linspace 0 b n) 0 = b - nth k (Np.linspace 0 b n) 0.
Proof.
  intros Hn Hk. rewrite !nth_linspace by lia.
  rewrite minus_INR by lia.
  assert (INR (n - 1) <> 0) by (apply not_0_INR; lia).
  field. assumption.
Qed.

(** X6: in exact real arithmetic the sampled field is mirror-symmetric
    about the equator.  Column samples - 1 - j holds the angle
    pi - theta[j]; there n1 and n2 are the same as in column j, n3 has the
    opposite sign, and the modulus is the same. *)
Theorem X6_equator_mirror (S11 S12 S44 : R) (samples i j : nat) :
  (2 <= samples)%nat -> (i < samples)%nat -> (j < samples)%nat ->
  let r := directional_E_cubic_from_S S11 S12 S44 samples in
  nth (samples - 1 - j) (theta_grid samples) 0
  = PI - nth j (theta_grid samples) 0 /\
  Np.cell (field_ax r) i (samples - 1 - j) = Np.cell (field_ax r) i j /\
  Np.cell (field_ay r) i (samples - 1 - j) = Np.cell (field_ay r) i j /\
  Np.cell (field_az r) i (samples - 1 - j) = - Np.cell (field_az r) i j /\
  Np.cell (field_E r) i (samples - 1 - j) = Np.cell (field_E r) i j.
Proof.
  intros Hn Hi Hj r. subst r.
  assert (Hth : nth (samples - 1 - j) (theta_grid samples) 0
                = PI - nth j (theta_grid samples) 0)
    by (apply linspace_reflect; assumption).
  split; [exact Hth|].
  rewrite !cell_field_ax, !cell_field_ay, !cell_field_az, !cell_field_E
    by lia.
  rewrite Hth, E_at_mirror_theta.
  unfold n1_at, n2_at, n3_at. rewrite sin_PI_x, cos_PI_minus.
  repeat split.
Qed.

Lemma X6_equator_mirror_witness :
  Np.cell (field_E (directional_E_cubic_from_S 1 0 1 5)) 2 (5 - 1 - 1)
  = Np.cell (field_E (directional_E_cubic_from_S 1 0 1 5)) 2 1.
Proof.
  apply (X6_equator_mirror 1 0 1 5 2 1); lia.
Defined.

(** X7: in exact real arithmetic the sampled field is mirror-symmetric in
    the azimuth.  Row samples - 1 - i holds the angle 2 pi - phi[i]; there
    n1 and n3 are the same as in row i, n2 has the opposite sign, and the
    modulus is the same. *)
Theorem X7_azimuth_mirror (S11 S12 S44 : R) (samples i j : nat) :
  (2 <= samples)%nat -> (i < samples)%nat -> (j < samples)%nat ->
  let r := directional_E_cubic_from_S S11 S12 S44 samples in
  nth (samples - 1 - i) (phi_grid samples) 0
  = 2 * PI - nth i (phi_grid samples) 0 /\
  Np.cell (field_ax r) (samples - 1 - i) j = Np.cell (field_ax r) i j /\
  Np.cell (field_ay r) (samples - 1 - i) j = - Np.cell (field_ay r) i j /\
  Np.cell (field_az r) (samples - 1 - i) j = Np.cell (field_az r) i j /\
  Np.cell (field_E r) (samples - 1 - i) j = Np.cell (field_E r) i j.
Proof.
  intros Hn Hi Hj r. subst r.
  assert (Hph : nth (samples - 1 - i) (phi_grid samples) 0
                = 2 * PI - nth i (phi_grid samples) 0)
    by (apply linspace_reflect; assumption).
  split; [exact Hph|].
  rewrite !cell_field_ax, !cell_field_ay, !cell_field_az, !cell_field_E
    by lia.
  rewrite Hph, E_at_mirror_phi.
  unfold n1_at, n2_at, n3_at. rewrite sin_2PI_minus, cos_2PI_minus.
  repeat split; ring.
Qed.

Lemma X7_azimuth_mirror_witness :
  Np.cell (field_E (directional_E_cubic_from_S 1 0 1 5)) (5 - 1 - 1) 2
  = Np.cell (field_E (directional_E_cubic_from_S 1 0 1 5)) 1 2.
Proof.
  apply (X7_azimuth_mirror 1 0 1 5 1 2); lia.
Defined.

(** X8: the fourfold axis, in exact real arithmetic.  When samples - 1 is
    a multiple of four, say 4k, the row k steps further holds the azimuth
    phi[i] + pi/2, where the direction is (-n2, n1, n3) and the modulus is
    the same: the field repeats every quarter turn about the polar axis. *)
Theorem X8_quarter_turn (S11 S12 S44 : R) (samples k i j : nat) :
  (1 <= k)%nat -> samples = (4 * k + 1)%nat ->
  (i + k < samples)%nat -> (j < samples)%nat ->
  let r := directional_E_cubic_from_S S11 S12 S44 samples in
  nth (i + k) (phi_grid samples) 0 = nth i (phi_grid samples) 0 + PI / 2 /\
  Np.cell (field_ax r) (i + k) j = - Np.cell (field_ay r) i j /\
  Np.cell (field_ay r) (i + k) j = Np.cell (field_ax r) i j /\
  Np.cell (field_az r) (i + k) j = Np.cell (field_az r) i j /\
  Np.cell (field_E r) (i + k) j = Np.cell (field_E r) i j.
Proof.
  intros Hk Hs Hi Hj r. subst r.
  assert (Hph : nth (i + k) (phi_grid samples) 0
                = nth i (phi_grid samples) 0 + PI / 2).
  { unfold phi_grid. rewrite !nth_linspace by lia.
    replace (samples - 1)%nat with (4 * k)%nat by lia.
    rewrite plus_INR, mult_INR.
    assert (INR k <> 0) by (apply not_0_INR; lia).
    simpl (INR 4). field. assumption. }
  split; [exact Hph|].
  rewrite !cell_field_ax, !cell_field_ay, !cell_field_az, !cell_field_E
    by lia.
  rewrite Hph, E_at_quarter_turn.
  unfold n1_at, n2_at, n3_at. rewrite sin_quarter_turn, cos_quarter_turn.
  repeat split; ring.
Qed.

Lemma X8_quarter_turn_witness :
  Np.cell (field_E (directional_E_cubic_from_S 1 0 1 9)) (3 + 2) 4
  = Np.cell (field_E (directional_E_cubic_from_S 1 0 1 9)) 3 4.
Proof.
  apply (X8_quarter_turn 1 0 1 9 2 3 4); lia.
Defined.

(** ** What the stability check buys *)

Lemma Einv_convex (S11 S12 S44 x : R) :
  S11 - 2.0 * (S11 - S12 - 0.5 * S44) * x
  = (1 - 3 * x) * S11 + 3 * x * ((S11 + 2 * S12 + S44) / 3).
Proof.
  replace 2.0 with 2 by lra. replace 0.5 with (1 / 2) by lra. field.
Qed.

Lemma Einv_lower_bound (S11 S12 S44 c x : R) :
  c <= S11 -> c <= (S11 + 2 * S12 + S44) / 3 -> 0 <= x <= 1 / 3 ->
  c <= S11 - 2.0 * (S11 - S12 - 0.5 * S44) * x.
Proof.
  intros H1 H2 Hx. rewrite Einv_convex.
  set (b := (S11 + 2 * S12 + S44) / 3) in *.
  assert (0 <= (1 - 3 * x) * (S11 - c)) by (apply Rmult_le_pos; lra).
  assert (0 <= 3 * x * (b - c)) by (apply Rmult_le_pos; lra).
  lra.
Qed.

(** X9: when the stability check passes (no warning), the unclamped
    1/E = S11 - 2 (S11 - S12 - S44/2) I2 is strictly positive in every unit
    direction, so the floor never has to repair a sign.  If moreover both
    S11 and (S11 + 2 S12 + S44)/3 are at least 1e-16, the floor is never
    reached and E is exactly the reciprocal of the docstring's formula in
    every unit direction. *)
Theorem X9_stable_means_positive (S11 S12 S44 : R) :
  stability_ok S11 S12 S44 = true ->
  (forall n1 n2 n3 : R, is_unit n1 n2 n3 ->
     0 < S11 - 2.0 * (S11 - S12 - 0.5 * S44) * I2_of n1 n2 n3) /\
  (1e-16 <= S11 -> 1e-16 <= (S11 + 2 * S12 + S44) / 3 ->
   forall n1 n2 n3 : R, is_unit n1 n2 n3 ->
     E_of_n S11 S12 S44 n1 n2 n3
     = 1 / (S11 - 2.0 * (S11 - S12 - 0.5 * S44) * I2_of n1 n2 n3)).
Proof.
  intros Hst. apply stability_ok_true_iff in Hst.
  destruct Hst as (H11 & H44 & _ & H12).
  split.
  - intros n1 n2 n3 Hu.
    pose proof (I2_of_nonneg n1 n2 n3) as H0.
    pose proof (I2_le_third n1 n2 n3 Hu) as H3.
    set (c := Rmin S11 ((S11 + 2 * S12 + S44) / 3)).
    assert (Hc : 0 < c) by (unfold c; apply Rmin_glb_lt; lra).
    pose proof (Einv_lower_bound S11 S12 S44 c (I2_of n1 n2 n3)
                  (Rmin_l _ _) (Rmin_r _ _) (conj H0 H3)).
    lra.
  - intros Hf1 Hf3 n1 n2 n3 Hu.
    pose proof (I2_of_nonneg n1 n2 n3) as H0.
    pose proof (I2_le_third n1 n2 n3 Hu) as H3.
    unfold E_of_n, E_of_I2.
    rewrite Rmax_floor_id; [f_equal; lra|].
    now apply Einv_lower_bound.
Qed.

Lemma X9_stable_means_positive_witness :
  stability_ok 3 (-1) 2 = true /\
  0 < 3 - 2.0 * (3 - (-1) - 0.5 * 2) * I2_of 1 0 0.
Proof.
  assert (Hst : stability_ok 3 (-1) 2 = true)
    by (apply stability_ok_true_iff; lra).
  assert (Hu : is_unit 1 0 0) by (unfold is_unit; ring).
  split; [exact Hst|].
  exact (proj1 (X9_stable_means_positive 3 (-1) 2 Hst) 1 0 0 Hu).
Defined.

(** ** Range of the sampled field *)

Lemma concat_tabulate2_nonempty (f : R -> R -> R) (xs ys : list R) :
  xs <> [] -> ys <> [] -> concat (tabulate2 f xs ys) <> [].
Proof.
  intros Hx Hy. destruct xs as [|x xs]; [contradiction|].
  destruct ys as [|y ys]; [contradiction|]. discriminate.
Qed.

Lemma grid_nonempty (a b : R) (n : nat) :
  (1 <= n)%nat -> Np.linspace a b n <> [].
Proof.
  intros Hn H. apply (f_equal (@length R)) in H.
  rewrite length_linspace in H. simpl in H. lia.
Qed.

Lemma modulus_field_nonempty (S11 S12 S44 : R) (n : nat) :
  (1 <= n)%nat -> concat (modulus_field S11 S12 S44 n) <> [].
Proof.
  intros Hn. rewrite modulus_field_tabulated.
  apply concat_tabulate2_nonempty; now apply grid_nonempty.
Qed.

Lemma modulus_field_pole (S11 S12 S44 : R) (n : nat) :
  (1 <= n)%nat ->
  Np.cell (modulus_field S11 S12 S44 n) 0 0 = 1 / Rmax S11 Einv_floor.
Proof.
  intros Hn. unfold modulus_field. rewrite cell_field_E by lia.
  unfold theta_grid. rewrite linspace_first by lia.
  apply E_at_pole, sin_0.
Qed.

Lemma modulus_field_cell00 (Q : R -> Prop) (S11 S12 S44 : R) (n : nat) :
  (1 <= n)%nat ->
  Forall (Forall Q) (modulus_field S11 S12 S44 n) ->
  Q (1 / Rmax S11 Einv_floor).
Proof.
  intros Hn HQ. rewrite <- (modulus_field_pole S11 S12 S44 n Hn).
  destruct (modulus_field_shape S11 S12 S44 n) as [Hlen Hrows].
  apply Forall2d_cell; [exact HQ | lia |].
  rewrite Forall_forall in Hrows.
  rewrite (Hrows (nth 0 (modulus_field S11 S12 S44 n) [])); [lia|].
  apply nth_In. lia.
Qed.

Lemma E_at_between (S11 S12 S44 t p : R) :
  Rmin (E_of_I2 S11 S12 S44 0) (E_of_I2 S11 S12 S44 (1 / 3))
  <= E_at S11 S12 S44 t p
  <= Rmax (E_of_I2 S11 S12 S44 0) (E_of_I2 S11 S12 S44 (1 / 3)).
Proof.
  unfold E_at, E_of_n.
  set (x := I2_of _ _ _).
  assert (H0 : 0 <= x) by apply I2_of_nonneg.
  assert (H3 : x <= 1 / 3) by (apply I2_le_third, direction_unit).
  pose proof (Rmin_l (E_of_I2 S11 S12 S44 0) (E_of_I2 S11 S12 S44 (1 / 3))).
  pose proof (Rmin_r (E_of_I2 S11 S12 S44 0) (E_of_I2 S11 S12 S44 (1 / 3))).
  pose proof (Rmax_l (E_of_I2 S11 S12 S44 0) (E_of_I2 S11 S12 S44 (1 / 3))).
  pose proof (Rmax_r (E_of_I2 S11 S12 S44 0) (E_of_I2 S11 S12 S44 (1 / 3))).
  destruct (Rtotal_order (aniso S11 S12 S44) 0) as [Hneg|[Hz|Hpos]].
  - pose proof (E_of_I2_decreasing S11 S12 S44 0 x Hneg H0).
    pose proof (E_of_I2_decreasing S11 S12 S44 x (1 / 3) Hneg H3). lra.
  - unfold aniso in Hz.
    rewrite (E_of_I2_isotropic S11 S12 S44 x Hz).
    rewrite (E_of_I2_isotropic S11 S12 S44 0 Hz) in *.
    rewrite (E_of_I2_isotropic S11 S12 S44 (1 / 3) Hz) in *. lra.
  - pose proof (E_of_I2_increasing S11 S12 S44 0 x Hpos H0).
    pose proof (E_of_I2_increasing S11 S12 S44 x (1 / 3) Hpos H3). lra.
Qed.

(** X10: in exact real arithmetic every sampled modulus lies between the
    <100> value 1 / max(S11, 1e-16) and the <111> value (the modulus at
    I2 = 1/3), in whichever order these two come.  The <100> value is always
    sampled (it sits at the pole), so it is the minimum of the field, the
    low end of the colour scale, when S11 - S12 - S44/2 >= 0, and the
    maximum of the field when S11 - S12 - S44/2 <= 0.  (A binary64 field
    that holds NaN after an overflow is outside this statement.) *)
Theorem X10_field_range (S11 S12 S44 : R) (samples : nat) :
  (1 <= samples)%nat ->
  Forall (Forall (fun e =>
            Rmin (1 / Rmax S11 1e-16) (E_of_I2 S11 S12 S44 (1 / 3)) <= e
            <= Rmax (1 / Rmax S11 1e-16) (E_of_I2 S11 S12 S44 (1 / 3))))
         (modulus_field S11 S12 S44 samples) /\
  (0 <= aniso S11 S12 S44 ->
   Np.amin (modulus_field S11 S12 S44 samples)
   = Some (1 / Rmax S11 1e-16)) /\
  (aniso S11 S12 S44 <= 0 ->
   Np.amax (modulus_field S11 S12 S44 samples)
   = Some (1 / Rmax S11 1e-16)).
Proof.
  intros Hn. fold Einv_floor.
  rewrite <- (E_of_I2_zero S11 S12 S44).
  assert (Hrange : Forall (Forall (fun e =>
            Rmin (E_of_I2 S11 S12 S44 0) (E_of_I2 S11 S12 S44 (1 / 3)) <= e
            <= Rmax (E_of_I2 S11 S12 S44 0) (E_of_I2 S11 S12 S44 (1 / 3))))
         (modulus_field S11 S12 S44 samples)).
  { rewrite modulus_field_tabulated.
    apply Forall_tabulate2; intros t p _ _. apply E_at_between. }
  split; [exact Hrange|].
  pose proof (modulus_field_nonempty S11 S12 S44 samples Hn) as Hne.
  assert (Hin : forall m, In m (concat (modulus_field S11 S12 S44 samples)) ->
            Rmin (E_of_I2 S11 S12 S44 0) (E_of_I2 S11 S12 S44 (1 / 3)) <= m
            <= Rmax (E_of_I2 S11 S12 S44 0) (E_of_I2 S11 S12 S44 (1 / 3))).
  { apply Forall_concat in Hrange. rewrite Forall_forall in Hrange.
    exact Hrange. }
  assert (H13 : 0 <= 1 / 3) by lra.
  split; intros HA.
  - destruct (amin_spec _ Hne) as (m & Hm & Hmin & Hlo).
    rewrite Hm. f_equal.
    pose proof (modulus_field_cell00 _ S11 S12 S44 samples Hn Hlo) as Hle.
    rewrite <- (E_of_I2_zero S11 S12 S44) in Hle.
    assert (Hord : E_of_I2 S11 S12 S44 0 <= E_of_I2 S11 S12 S44 (1 / 3)).
    { destruct HA as [HA|HA].
      - now apply E_of_I2_increasing.
      - unfold aniso in HA. symmetry in HA.
        rewrite !(E_of_I2_isotropic S11 S12 S44 _ HA). lra. }
    specialize (Hin m Hmin). rewrite Rmin_left in Hin by exact Hord. lra.
  - destruct (amax_spec _ Hne) as (m & Hm & Hmax & Hhi).
    rewrite Hm. f_equal.
    pose proof (modulus_field_cell00 _ S11 S12 S44 samples Hn Hhi) as Hle.
    rewrite <- (E_of_I2_zero S11 S12 S44) in Hle.
    assert (Hord : E_of_I2 S11 S12 S44 (1 / 3) <= E_of_I2 S11 S12 S44 0).
    { destruct HA as [HA|HA].
      - now apply E_of_I2_decreasing.
      - unfold aniso in HA.
        rewrite !(E_of_I2_isotropic S11 S12 S44 _ HA). lra. }
    specialize (Hin m Hmax). rewrite Rmax_left in Hin by exact Hord. lra.
Qed.

Lemma X10_field_range_witness :
  (1 <= 5)%nat /\ 0 <= aniso 3 0 0 /\
  Np.amin (modulus_field 3 0 0 5) = Some (1 / Rmax 3 1e-16).
Proof.
  assert (Hn : (1 <= 5)%nat) by lia.
  assert (HA : 0 <= aniso 3 0 0) by (unfold aniso; lra).
  split; [exact Hn|]. split; [exact HA|].
  exact (proj1 (proj2 (X10_field_range 3 0 0 5 Hn)) HA).
Defined.

(** ** Coarse grids *)

Lemma theta_grid_1 : theta_grid 1 = [0].
Proof.
  unfold theta_grid, Np.linspace. simpl.
  apply f_equal2; [lra | reflexivity].
Qed.

Lemma theta_grid_2 : theta_grid 2 = [0; PI].
Proof.
  unfold theta_grid, Np.linspace. simpl.
  apply f_equal2; [lra | reflexivity].
Qed.

Lemma theta_grid_3 : theta_grid 3 = [0; PI / 2; PI].
Proof.
  unfold theta_grid, Np.linspace. simpl.
  apply f_equal2; [lra|]. apply f_equal2; [lra | reflexivity].
Qed.

Lemma phi_grid_3 : phi_grid 3 = [0; PI; 2 * PI].
Proof.
  unfold phi_grid, Np.linspace. simpl.
  apply f_equal2; [lra|]. apply f_equal2; [lra | reflexivity].
Qed.

Lemma I2_axis_directions (t p : R) :
  Rtrigo_def.sin t = 0 \/ (Rtrigo_def.cos t = 0 /\ Rtrigo_def.sin p = 0) ->
  I2_of (n1_at t p) (n2_at t p) (n3_at t p) = 0.
Proof.
  unfold I2_of, n1_at, n2_at, n3_at.
  intros [Hs|[Hc Hp]]; [rewrite Hs | rewrite Hc, Hp]; ring.
Qed.

Lemma coarse_grid_axis (n : nat) (t p : R) :
  (n <= 3)%nat -> In t (theta_grid n) -> In p (phi_grid n) ->
  Rtrigo_def.sin t = 0 \/ (Rtrigo_def.cos t = 0 /\ Rtrigo_def.sin p = 0).
Proof.
  intros Hn Ht Hp.
  destruct n as [|[|[|[|n]]]]; [| | | |lia].
  - destruct Ht.
  - rewrite theta_grid_1 in Ht. destruct Ht as [<-|[]]. left; apply sin_0.
  - rewrite theta_grid_2 in Ht.
    destruct Ht as [<-|[<-|[]]]; left; [apply sin_0 | apply sin_PI].
  - rewrite theta_grid_3 in Ht. rewrite phi_grid_3 in Hp.
    destruct Ht as [<-|[<-|[<-|[]]]];
      [left; apply sin_0 | right | left; apply sin_PI].
    split; [apply cos_PI2|].
    destruct Hp as [<-|[<-|[<-|[]]]];
      [apply sin_0 | apply sin_PI | apply sin_2PI].
Qed.

(** X11: in exact real arithmetic a grid of at most three samples per
    angle only meets the cube axes.  For samples <= 3 the modulus field is
    constant, equal to 1 / max(S11, 1e-16) in every cell whatever S12 and
    S44 are, so the anisotropy is invisible, and (for samples >= 1) every
    cell is drawn in the colour of the normalised value 0.  (In binary64
    sin(np.pi) and cos(np.pi/2) are of the order of 1e-16, so there I2 is
    about 1e-32 in those cells and the field is constant only as long as
    1e-32 * |2 (S11 - S12 - S44/2)| is negligible against S11.) *)
Theorem X11_coarse_grid_constant
    (colormaps : string -> option (R -> Mpl.rgba)) (cmap_name : string)
    (cmap : R -> Mpl.rgba) (S11 S12 S44 : R) (samples : nat) :
  (samples <= 3)%nat ->
  Forall (Forall (fun e => e = 1 / Rmax S11 1e-16))
         (modulus_field S11 S12 S44 samples) /\
  ((1 <= samples)%nat -> colormaps cmap_name = Some cmap ->
   Mpl.face_colors colormaps cmap_name (modulus_field S11 S12 S44 samples)
   = Some (map (map (fun _ => cmap 0)) (modulus_field S11 S12 S44 samples))).
Proof.
  intros Hn.
  assert (HE : Forall (Forall (fun e => e = 1 / Rmax S11 1e-16))
                 (modulus_field S11 S12 S44 samples)).
  { rewrite modulus_field_tabulated.
    apply Forall_tabulate2; intros t p Ht Hp.
    unfold E_at, E_of_n.
    rewrite I2_axis_directions by (now apply (coarse_grid_axis samples)).
    apply E_of_I2_zero. }
  split; [exact HE|].
  intros H1 Hc.
  apply (face_colors_constant colormaps cmap_name cmap _
           (1 / Rmax S11 1e-16)); try assumption.
  now apply modulus_field_nonempty.
Qed.

Lemma X11_coarse_grid_constant_witness :
  (3 <= 3)%nat /\
  Forall (Forall (fun e => e = 1 / Rmax 3 1e-16)) (modulus_field 3 (-1) 2 3).
Proof.
  assert (Hn : (3 <= 3)%nat) by lia.
  split; [exact Hn|].
  exact (proj1 (X11_coarse_grid_constant grey_registry "turbo" grey_ramp
                  3 (-1) 2 3 Hn)).
Defined.

(** ** Whole runs *)

Lemma main_call (a : Args) :
  (0 <= args_samples a)%Z ->
  snd (main a)
  = Some (mkRenderCall
            (field_E (directional_E_cubic_from_S (args_S11 a) (args_S12 a)
                        (args_S44 a) (Z.to_nat (args_samples a))))
            (field_ax (directional_E_cubic_from_S (args_S11 a) (args_S12 a)
                         (args_S44 a) (Z.to_nat (args_samples a))))
            (field_ay (directional_E_cubic_from_S (args_S11 a) (args_S12 a)
                         (args_S44 a) (Z.to_nat (args_samples a))))
            (field_az (directional_E_cubic_from_S (args_S11 a) (args_S12 a)
                         (args_S44 a) (Z.to_nat (args_samples a))))
            (args_cmap a)
            (args_material a ++ " - Young's Modulus (GPa)")
            (args_material a ++ " - Young's Modulus (GPa)")).
Proof.
  intros Hs. unfold main.
  destruct (Z.ltb_spec (args_samples a) 0) as [Hneg|_]; [lia|].
  now destruct (directional_E_cubic_from_S _ _ _ _) as [[[E ax] ay] az].
Qed.

Lemma main_negative (a : Args) :
  (args_samples a < 0)%Z -> snd (main a) = None.
Proof.
  intros Hs. unfold main.
  destruct (Z.ltb_spec (args_samples a) 0) as [_|Hpos]; [reflexivity | lia].
Qed.

Lemma run_main (colormaps : string -> option (R -> Mpl.rgba)) (a : Args) :
  run colormaps a
  = (fst (main a),
     match snd (main a) with
     | Some c =>
         plot_young_surface_colored colormaps (rc_E c) (rc_ax c) (rc_ay c)
           (rc_az c) (rc_title c) (rc_cmap_name c) (rc_outfile c)
     | None => None
     end).
Proof. unfold run. now destruct (main a) as [printed [c|]]. Qed.

Lemma modulus_field_empty (S11 S12 S44 : R) :
  concat (modulus_field S11 S12 S44 0) = [].
Proof. reflexivity. Qed.

(** X12: a run reaches the backend exactly when samples >= 1 and the
    colormap name is registered, for all compliances, stable or not.  With
    samples < 0 the evaluator raises, with samples = 0 the field is empty and
    its minimum raises, with an unknown name the registry lookup raises.  In
    all these cases what was printed is what the stability check alone
    decides: the warning comes before the failure. *)
Theorem X12_run_outcome (colormaps : string -> option (R -> Mpl.rgba))
    (a : Args) :
  (snd (run colormaps a) = None
   <-> (args_samples a <= 0)%Z \/ colormaps (args_cmap a) = None) /\
  fst (run colormaps a) = (if warned a then warning_lines else []).
Proof.
  rewrite run_main. simpl. split.
  - destruct (Z.ltb_spec (args_samples a) 0) as [Hneg|Hpos].
    + rewrite main_negative by exact Hneg. split; [left; lia | reflexivity].
    + rewrite main_call by exact Hpos. simpl.
      fold (modulus_field (args_S11 a) (args_S12 a) (args_S44 a)
              (Z.to_nat (args_samples a))).
      rewrite renderer_fails_iff.
      split.
      * intros [HE|Hc]; [left | now right].
        destruct (Z.eq_dec (args_samples a) 0) as [H0|H0]; [lia|].
        exfalso. revert HE.
        apply (modulus_field_nonempty (args_S11 a) (args_S12 a) (args_S44 a)
                 (Z.to_nat (args_samples a))).
        lia.
      * intros [Hs|Hc]; [left | now right].
        replace (args_samples a) with 0%Z by lia.
        apply (modulus_field_empty (args_S11 a) (args_S12 a) (args_S44 a)).
  - unfold warned. rewrite main_printed.
    now destruct (stability_ok _ _ _).
Qed.

(** X13: in exact real arithmetic (the field holds real numbers, no NaN)
    a run with samples >= 1 and a registered colormap succeeds for all
    compliances.  The backend receives three vertex arrays of shape
    (samples, samples), one colour per cell, each the colormap applied to a
    value in [0, 1]; the title is the material followed by
    " - Young's Modulus (GPa)", and the file is saved under that very title
    (the renderer's default file name is never used). *)
Theorem X13_run_success (colormaps : string -> option (R -> Mpl.rgba))
    (cmap : R -> Mpl.rgba) (a : Args) :
  (1 <= args_samples a)%Z -> colormaps (args_cmap a) = Some cmap ->
  exists (p : surface_plot) (X : Np.arr),
    snd (run colormaps a) = Some p /\
    sp_title p = (args_material a ++ " - Young's Modulus (GPa)")%string /\
    sp_outfile p = sp_title p /\
    Np.shape (sp_X p) (Z.to_nat (args_samples a))
             (Z.to_nat (args_samples a)) /\
    Np.shape (sp_Y p) (Z.to_nat (args_samples a))
             (Z.to_nat (args_samples a)) /\
    Np.shape (sp_Z p) (Z.to_nat (args_samples a))
             (Z.to_nat (args_samples a)) /\
    sp_facecolors p = map (map cmap) X /\
    Np.shape X (Z.to_nat (args_samples a)) (Z.to_nat (args_samples a)) /\
    Forall (Forall (fun x => 0 <= x <= 1)) X.
Proof.
  intros Hs Hc.
  set (n := Z.to_nat (args_samples a)).
  assert (Hn : (1 <= n)%nat) by (unfold n; lia).
  pose proof (modulus_field_nonempty (args_S11 a) (args_S12 a) (args_S44 a)
                n Hn) as Hne.
  destruct (normalized_field_unit_interval _ Hne)
    as (vmin & vmax & X & Hmin & Hmax & Hle & HX & H01).
  assert (HXshape : Np.shape X n n).
  { pose proof (modulus_field_shape (args_S11 a) (args_S12 a) (args_S44 a) n)
      as [Hlen Hrows].
    unfold normalized_field in HX. rewrite Hmin, Hmax in HX.
    unfold Mpl.Normalize in HX.
    assert (Hu : forall f, Np.shape (Np.ufunc f
                    (modulus_field (args_S11 a) (args_S12 a) (args_S44 a) n))
                    n n).
    { intros f. unfold Np.shape, Np.ufunc. rewrite length_map.
      split; [exact Hlen|].
      apply Forall_map. eapply Forall_impl; [|exact Hrows].
      intros row Hrow. now rewrite length_map. }
    destruct (Req_dec_T vmin vmax); [injection HX as <-; apply Hu|].
    destruct (Rlt_dec vmax vmin); [discriminate|].
    injection HX as <-; apply Hu. }
  rewrite run_main, main_call by lia.
  cbn [snd rc_E rc_ax rc_ay rc_az rc_title rc_cmap_name rc_outfile].
  fold n. unfold plot_young_surface_colored.
  fold (modulus_field (args_S11 a) (args_S12 a) (args_S44 a) n).
  rewrite face_colors_normalized, HX, Hc.
  eexists; exists X.
  split; [reflexivity|].
  cbn [sp_title sp_outfile sp_X sp_Y sp_Z sp_facecolors].
  split; [reflexivity|]. split; [reflexivity|].
  unfold modulus_field. rewrite directional_E_tabulated.
  cbn [field_E field_ax field_ay field_az].
  rewrite !surface_tabulated.
  assert (Hsh : forall f, Np.shape (tabulate2 f (theta_grid n) (phi_grid n))
                            n n).
  { intros f. pose proof (tabulate2_shape f (theta_grid n) (phi_grid n)) as H.
    now rewrite length_phi_grid, length_theta_grid in H. }
  repeat split; try apply Hsh; try apply HXshape; exact H01.
Qed.

Lemma X13_run_success_witness :
  (1 <= args_samples (mkArgs "Cu" 3 (-1) 2 5 "turbo"))%Z /\
  grey_registry (args_cmap (mkArgs "Cu" 3 (-1) 2 5 "turbo"))
  = Some grey_ramp /\
  exists (p : surface_plot) (X : Np.arr),
    snd (run grey_registry (mkArgs "Cu" 3 (-1) 2 5 "turbo")) = Some p /\
    sp_title p = "Cu - Young's Modulus (GPa)"%string /\
    sp_outfile p = sp_title p /\
    Np.shape (sp_X p) 5 5 /\ Np.shape (sp_Y p) 5 5 /\
    Np.shape (sp_Z p) 5 5 /\
    sp_facecolors p = map (map grey_ramp) X /\
    Np.shape X 5 5 /\
    Forall (Forall (fun x => 0 <= x <= 1)) X.
Proof.
  assert (Hs : (1 <= args_samples (mkArgs "Cu" 3 (-1) 2 5 "turbo"))%Z)
    by (simpl; lia).
  assert (Hc : grey_registry (args_cmap (mkArgs "Cu" 3 (-1) 2 5 "turbo"))
               = Some grey_ramp) by reflexivity.
  split; [exact Hs|]. split; [exact Hc|].
  exact (X13_run_success grey_registry grey_ramp
           (mkArgs "Cu" 3 (-1) 2 5 "turbo") Hs Hc).
Defined.

(** ** The floor in binary64 *)

Lemma SFeqb_self (s : spec_float) :
  SFeqb s s = match s with S754_nan => false | _ => true end.
Proof.
  unfold SFeqb. destruct s as [b|b| |b m e]; simpl; try reflexivity.
  - now destruct b.
  - rewrite Z.compare_refl, Pos.compare_cont_refl. now destruct b.
Qed.

Lemma is_nan_Prim2SF (x : float) :
  PrimFloat.is_nan x
  = match Prim2SF x with S754_nan => true | _ => false end.
Proof.
  unfold PrimFloat.is_nan. rewrite eqb_spec, SFeqb_self.
  now destruct (Prim2SF x).
Qed.

Lemma SFleb_of_not_SFltb (s : spec_float) (m : positive) (e : Z) :
  s <> S754_nan ->
  SFltb s (S754_finite false m e) = false ->
  SFleb (S754_finite false m e) s = true.
Proof.
  intros Hn. unfold SFltb, SFleb.
  destruct s as [b|b| |b m' e']; simpl; try congruence.
  - now destruct b.
  - destruct b; [discriminate|].
    rewrite (Z.compare_antisym e' e).
    destruct (e' ?= e)%Z; simpl; try congruence.
    pose proof (Pos.compare_cont_antisym m' m Eq) as Hm. simpl in Hm.
    rewrite <- Hm.
    now destruct (Pos.compare_cont Eq m' m).
Qed.

Lemma Einv_floor_positive_finite :
  exists (m : positive) (e : Z),
    Prim2SF B64.Einv_floor = S754_finite false m e.
Proof. eexists; eexists. vm_compute. reflexivity. Qed.

Lemma div_by_nan (x y : float) :
  PrimFloat.is_nan y = true -> PrimFloat.is_nan (x / y)%float = true.
Proof.
  rewrite !is_nan_Prim2SF, div_spec. unfold SF64div, SFdiv.
  destruct (Prim2SF y); try discriminate.
  intros _. now destruct (Prim2SF x).
Qed.

Lemma E_cell_Einv (S11 S12 S44 ax ay az : float) :
  B64.E_cell S11 S12 S44 ax ay az
  = (1.0 / B64.maximum (Einv_cell_b64 S11 S12 S44 ax ay az)
                       B64.Einv_floor)%float.
Proof. reflexivity. Qed.

(** X14: the floor in binary64.  [np.maximum(Einv, 1e-16)] maps every value
    that is not NaN (negative numbers, both zeros, both infinities included)
    to a value that is at least the floor, and it leaves NaN as NaN;
    consequently a cell whose unclamped Einv is NaN has a NaN modulus. *)
Theorem X14_floor_binary64 (S11 S12 S44 ax ay az x : float) :
  PrimFloat.is_nan (B64.maximum x B64.Einv_floor) = PrimFloat.is_nan x /\
  (PrimFloat.is_nan x = false ->
   (B64.Einv_floor <=? B64.maximum x B64.Einv_floor)%float = true) /\
  (PrimFloat.is_nan (Einv_cell_b64 S11 S12 S44 ax ay az) = true ->
   PrimFloat.is_nan (B64.E_cell S11 S12 S44 ax ay az) = true).
Proof.
  assert (Hf : PrimFloat.is_nan B64.Einv_floor = false)
    by (vm_compute; reflexivity).
  assert (Hnan : forall y, PrimFloat.is_nan (B64.maximum y B64.Einv_floor)
                           = PrimFloat.is_nan y).
  { intros y. unfold B64.maximum. rewrite Hf, orb_false_r.
    destruct (PrimFloat.is_nan y) eqn:Hy; [vm_compute; reflexivity|].
    now destruct (y <? B64.Einv_floor)%float. }
  split; [apply Hnan|]. split.
  - intros Hx. unfold B64.maximum. rewrite Hf, Hx. simpl.
    destruct (x <? B64.Einv_floor)%float eqn:Hlt;
      [vm_compute; reflexivity|].
    destruct Einv_floor_positive_finite as (m & e & Hfl).
    rewrite ltb_spec, Hfl in Hlt. rewrite leb_spec, Hfl.
    apply SFleb_of_not_SFltb; [|exact Hlt].
    rewrite is_nan_Prim2SF in Hx. intros H. rewrite H in Hx. discriminate.
  - intros HE. rewrite E_cell_Einv. apply div_by_nan.
    now rewrite Hnan.
Qed.

Lemma X14_floor_binary64_witness :
  PrimFloat.is_nan (-1)%float = false /\
  (B64.Einv_floor <=? B64.maximum (-1) B64.Einv_floor)%float = true.
Proof.
  assert (Hx : PrimFloat.is_nan (-1)%float = false)
    by (vm_compute; reflexivity).
  split; [exact Hx|].
  exact (proj1 (proj2 (X14_floor_binary64 0 0 0 0 0 0 (-1))) Hx).
Defined.

(** ** The theta = 0 pole in binary64 *)

Lemma is_finite_Prim2SF (x : float) :
  PrimFloat.is_finite x = true ->
  exists s : bool,
    Prim2SF x = S754_zero s \/
    exists (m : positive) (e : Z), Prim2SF x = S754_finite s m e.
Proof.
  unfold PrimFloat.is_finite, PrimFloat.is_infinity.
  rewrite is_nan_Prim2SF, eqb_spec, abs_spec.
  destruct (Prim2SF x) as [s|s| |s m e]; simpl; try discriminate.
  - intros _. exists s. now left.
  - intros _. exists s. right. now exists m, e.
Qed.

Lemma zero_float_cases (x : float) (s : bool) :
  Prim2SF x = S754_zero s -> x = 0%float \/ x = (-0)%float.
Proof.
  intros H. destruct s; [right | left]; apply Prim2SF_inj; rewrite H;
    vm_compute; reflexivity.
Qed.

Lemma zero_times_finite (c : float) :
  PrimFloat.is_finite c = true ->
  (0 * c)%float = 0%float \/ (0 * c)%float = (-0)%float.
Proof.
  intros Hc. destruct (is_finite_Prim2SF c Hc) as (s & [H|(m & e & H)]);
    apply (zero_float_cases _ (xorb false s)); rewrite mul_spec, H.
  - vm_compute. now destruct s.
  - replace (Prim2SF 0) with (S754_zero false) by (vm_compute; reflexivity).
    reflexivity.
Qed.

Lemma finite_times_zero (k : float) :
  PrimFloat.is_finite k = true ->
  (k * 0)%float = 0%float \/ (k * 0)%float = (-0)%float.
Proof.
  intros Hk. destruct (is_finite_Prim2SF k Hk) as (s & [H|(m & e & H)]);
    apply (zero_float_cases _ (xorb s false)); rewrite mul_spec, H.
  - vm_compute. now destruct s.
  - replace (Prim2SF 0) with (S754_zero false) by (vm_compute; reflexivity).
    reflexivity.
Qed.

Lemma maximum_minus_zero (x z : float) :
  z = 0%float \/ z = (-0)%float ->
  B64.maximum (x - z) B64.Einv_floor = B64.maximum x B64.Einv_floor.
Proof.
  intros Hz.
  assert (Hzs : exists s, Prim2SF z = S754_zero s)
    by (destruct Hz as [-> | ->]; eexists; vm_compute; reflexivity).
  destruct Hzs as (s & Hzs).
  destruct (Prim2SF x) as [sx|sx| |sx m e] eqn:Hx.
  - assert (Hx0 : x = 0%float \/ x = (-0)%float)
      by (apply (zero_float_cases _ sx); exact Hx).
    destruct Hx0 as [-> | ->], Hz as [-> | ->]; vm_compute; reflexivity.
  - f_equal. apply Prim2SF_inj. rewrite sub_spec, Hx, Hzs. reflexivity.
  - f_equal. apply Prim2SF_inj. rewrite sub_spec, Hx, Hzs. reflexivity.
  - f_equal. apply Prim2SF_inj. rewrite sub_spec, Hx, Hzs. reflexivity.
Qed.

(** X15: the theta = 0 pole in binary64.  In every cell of column 0, where
    ax = sin(0) * cos(phi) and ay = sin(0) * sin(phi) with sin(0) = +0 and
    finite cos(phi), sin(phi), and az = cos(0) = 1, the returned modulus is
    exactly 1.0 / np.maximum(S11, 1e-16), whatever S12 and S44 are, provided
    the factor 2.0 * (S11 - S12 - 0.5*S44) is finite (no overflow). *)
Theorem X15_north_pole_binary64 (S11 S12 S44 c s : float) :
  PrimFloat.is_finite c = true -> PrimFloat.is_finite s = true ->
  PrimFloat.is_finite (2.0 * (S11 - S12 - 0.5 * S44))%float = true ->
  B64.E_cell S11 S12 S44 (B64.sin_0 * c) (B64.sin_0 * s) B64.cos_0
  = (1.0 / B64.maximum S11 B64.Einv_floor)%float.
Proof.
  intros Hc Hs Hk.
  unfold B64.sin_0, B64.cos_0.
  assert (HI : forall a b : float,
             (a = 0 \/ a = (-0))%float -> (b = 0 \/ b = (-0))%float ->
             (a * a * (b * b) + b * b * (1 * 1) + 1 * 1 * (a * a))%float
             = 0%float).
  { intros a b [-> | ->] [-> | ->]; vm_compute; reflexivity. }
  unfold B64.E_cell. cbv zeta.
  rewrite (HI _ _ (zero_times_finite c Hc) (zero_times_finite s Hs)).
  now rewrite (maximum_minus_zero S11 _ (finite_times_zero _ Hk)).
Qed.

Lemma X15_north_pole_binary64_witness :
  B64.E_cell 1 (-2) 4 (B64.sin_0 * 1) (B64.sin_0 * 0) B64.cos_0
  = (1.0 / B64.maximum 1 B64.Einv_floor)%float.
Proof.
  apply (X15_north_pole_binary64 1 (-2) 4 1 0);
    vm_compute; reflexivity.
Defined.
